(** * TheDocs: the index store, the search service and the fallback scanner

    A shallow embedding of [app/services/index_store.py],
    [app/services/search_service.py] and the search and enrichment helpers of
    [app/main.py], followed by the properties of the specification that
    these functions decide.

    Conventions.
    - A Python [str] is a [string]; its characters are the code points
      below 256, so [ascii] stands for one character.
    - A [dict] with string keys is a [gmap string _]; [d.get(k)] is [d !! k].
    - The clock ([datetime.utcnow()]) is an argument: [today] is what
      [_today_str()] returns during the call and [now] what [_timestamp()]
      returns.
    - [index.csv] is held as the sequence of rows that [csv.reader] yields
      for it (a row is the list of its fields); [csv.writer] followed by
      [csv.reader] is the identity on such rows as long as no field
      exceeds the reader's bound on the size of a field, so quoting is not
      modelled and the bound is.
    - The [FileLock] serialises whole calls; calls are modelled one at a
      time, so the lock does not appear. *)

From Stdlib Require Import String Ascii List Arith Lia Bool DecimalString
  DecimalNat.
From stdpp Require Import base gmap strings list sorting.
From Equations Require Import Equations.

(* ===================================================================== *)
(** * Part I: definitions                                                 *)
(* ===================================================================== *)

(** ** Python built-ins on [str] *)
Module Py.

Definition chars (s : string) : list ascii := list_ascii_of_string s.
Definition str (l : list ascii) : string := string_of_list_ascii l.

(** [len(s)] *)
Definition len (s : string) : nat := length (chars s).

(** [c.isspace()] *)
Definition isspace (c : ascii) : bool :=
  let n := nat_of_ascii c in
  ((9 <=? n) && (n <=? 13)) || ((28 <=? n) && (n <=? 32))
  || (n =? 133) || (n =? 160).

Fixpoint lstrip_l (p : ascii → bool) (s : list ascii) : list ascii :=
  match s with
  | [] => []
  | c :: s' => if p c then lstrip_l p s' else s
  end.

Definition rstrip_l (p : ascii → bool) (s : list ascii) : list ascii :=
  rev (lstrip_l p (rev s)).

Definition strip_l (p : ascii → bool) (s : list ascii) : list ascii :=
  rstrip_l p (lstrip_l p s).

(** [s.strip()] *)
Definition strip (s : string) : string := str (strip_l isspace (chars s)).

(** [s.strip(cs)] *)
Definition strip_chars (cs s : string) : string :=
  str (strip_l (λ c, bool_decide (c ∈ chars cs)) (chars s)).

Definition lower_char (c : ascii) : ascii :=
  let n := nat_of_ascii c in
  if ((65 <=? n) && (n <=? 90))
     || ((192 <=? n) && (n <=? 222) && negb (n =? 215))
  then ascii_of_nat (n + 32) else c.

(** [s.lower()]. On the code points below 256 Python lower-cases
    character by character. Beyond them [lower] may lengthen the text (the
    capital I with a dot above becomes two characters), which is why the
    offsets of a scan are stated below as offsets of the lower-cased
    text. *)
Definition lower (s : string) : string := str (map lower_char (chars s)).

(** [s.startswith(sub)] on character lists *)
Fixpoint startswith_l (s sub : list ascii) : bool :=
  match sub, s with
  | [], _ => true
  | _ :: _, [] => false
  | b :: sub', c :: s' => Ascii.eqb c b && startswith_l s' sub'
  end.

(** lowest index [>= i] at which [sub] occurs, [s] being the text from
    offset [i] on *)
Fixpoint find_from (s sub : list ascii) (i : nat) : option nat :=
  if startswith_l s sub then Some i
  else match s with
       | [] => None
       | _ :: s' => find_from s' sub (S i)
       end.

(** [s.find(sub, start)] for [start >= 0]; [None] is Python's [-1] *)
Definition find (s sub : string) (start : nat) : option nat :=
  if start <=? len s then find_from (drop start (chars s)) (chars sub) start
  else None.

(** highest index of the character [c], as [s.rfind(c)] *)
Definition rfind_char (s : list ascii) (c : ascii) : option nat :=
  (λ i, length s - 1 - i) <$> (fst <$> list_find (λ x, x = c) (rev s)).

(** [s[a:b]] for [0 <= a], [0 <= b] *)
Definition slice (s : string) (a b : nat) : string :=
  str (take (b - a) (drop a (chars s))).

(** [s.replace(old, new)]; [skip] counts the characters of a replaced
    occurrence still to be passed over *)
Fixpoint replace_go (old new : list ascii) (skip : nat) (s : list ascii)
  : list ascii :=
  match s with
  | [] => match old with [] => new | _ => [] end
  | c :: s' =>
      match skip with
      | S k => replace_go old new k s'
      | 0 =>
          match old with
          | [] => new ++ c :: replace_go old new 0 s'
          | _ :: _ =>
              if startswith_l s old
              then new ++ replace_go old new (length old - 1) s'
              else c :: replace_go old new 0 s'
          end
      end
  end.

Definition replace (s old new : string) : string :=
  str (replace_go (chars old) (chars new) 0 (chars s)).

(** [s.split()]: the maximal runs of non-space characters *)
Fixpoint split_go (cur : list ascii) (s : list ascii) : list string :=
  match s with
  | [] => match cur with [] => [] | _ => [str (rev cur)] end
  | c :: s' =>
      if isspace c
      then match cur with
           | [] => split_go [] s'
           | _ => str (rev cur) :: split_go [] s'
           end
      else split_go (c :: cur) s'
  end.

Definition split (s : string) : list string := split_go [] (chars s).

(** [sep.join(l)] *)
Fixpoint join (sep : string) (l : list string) : string :=
  match l with
  | [] => ""
  | [x] => x
  | x :: l' => x +:+ sep +:+ join sep l'
  end.

(** [str(n)] for a natural number *)
Definition str_of_nat (n : nat) : string :=
  NilEmpty.string_of_uint (Nat.to_uint n).

(** [os.path.basename(p)] (POSIX) *)
Definition basename (p : string) : string :=
  match rfind_char (chars p) "/"%char with
  | Some i => str (drop (S i) (chars p))
  | None => p
  end.

(** [os.path.splitext(p)] (POSIX): the extension starts at the last dot
    that follows the last separator, unless only dots precede it in the
    file name *)
Definition splitext (p : string) : string * string :=
  let s := chars p in
  let name_start := match rfind_char s "/"%char with
                    | Some i => S i
                    | None => 0
                    end in
  match rfind_char s "."%char with
  | Some dot =>
      if (name_start <=? dot)
         && existsb (λ c, negb (Ascii.eqb c "."%char))
              (take (dot - name_start) (drop name_start s))
      then (str (take dot s), str (drop dot s))
      else (p, "")
  | None => (p, "")
  end.

(** [re.sub(pattern, repl, s)] for a pattern that is one negated
    character class repeated with [+]; [bad] tells the characters outside
    the class: every maximal run of [bad] characters becomes one [repl] *)
Fixpoint re_sub_runs (bad : ascii → bool) (repl : list ascii)
  (in_run : bool) (s : list ascii) : list ascii :=
  match s with
  | [] => []
  | c :: s' =>
      if bad c
      then (if in_run then [] else repl) ++ re_sub_runs bad repl true s'
      else c :: re_sub_runs bad repl false s'
  end.

(** the double quote character *)
Definition dquote : ascii := Eval cbv in ascii_of_nat 34.

Fixpoint take_while (p : ascii → bool) (s : list ascii) : list ascii :=
  match s with
  | [] => []
  | c :: s' => if p c then c :: take_while p s' else []
  end.

(** group 1 of the first match in [s] of the pattern: a double quote, one
    or more characters that are not double quotes, a double quote *)
Fixpoint first_quoted (s : list ascii) : option (list ascii) :=
  match s with
  | [] => None
  | c :: rest =>
      if Ascii.eqb c dquote
      then
        let body := take_while (λ x, negb (Ascii.eqb x dquote)) rest in
        match body, drop (length body) rest with
        | _ :: _, _ :: _ => Some body
        | _, _ => first_quoted rest
        end
      else first_quoted rest
  end.

(** Two facts that the termination of the scanning loop in
    [app/main.py] rests on: a successful [find] lies at or after [start]
    and inside the text, and [lower] keeps the length. *)
Lemma startswith_l_length s sub :
  startswith_l s sub = true → length sub ≤ length s.
Proof.
  revert s; induction sub as [|b sub IH]; intros [|c s]; simpl;
    try lia; try discriminate.
  intros [_ H]%andb_prop. apply IH in H. lia.
Qed.

Lemma find_from_bounds s sub i r :
  find_from s sub i = Some r → i ≤ r ∧ r + length sub ≤ i + length s.
Proof.
  revert i; induction s as [|c s IH]; intros i; cbn [find_from].
  - destruct (startswith_l [] sub) eqn:E; [|done].
    intros Hr; inversion Hr; subst.
    apply startswith_l_length in E. lia.
  - destruct (startswith_l (c :: s) sub) eqn:E.
    + intros Hr; inversion Hr; subst.
      apply startswith_l_length in E. lia.
    + intros H%IH. simpl. lia.
Qed.

Lemma find_bounds s sub start r :
  find s sub start = Some r → start ≤ r ∧ r + len sub ≤ len s.
Proof.
  unfold find. destruct (start <=? len s) eqn:E; [|done].
  apply Nat.leb_le in E. intros H%find_from_bounds.
  rewrite length_drop in H. unfold len in *. lia.
Qed.

Lemma chars_str l : chars (str l) = l.
Proof. apply list_ascii_of_string_of_list_ascii. Qed.

Lemma str_chars s : str (chars s) = s.
Proof. apply string_of_list_ascii_of_string. Qed.

Lemma len_lower s : len (lower s) = len s.
Proof. unfold len, lower. by rewrite chars_str, length_map. Qed.

Lemma len_nonempty s : s ≠ "" → len s ≠ 0.
Proof. destruct s; [done|]. intros _. unfold len. simpl. lia. Qed.

(** exceptions *)
Inductive exn :=
| ValueError (msg : string)
| EngineError (msg : string)
| CsvError (msg : string).

(** the outcome of a call that may raise *)
Inductive outcome (A : Type) :=
| Returned (a : A)
| Raised (e : exn).
Arguments Returned {A} a.
Arguments Raised {A} e.

End Py.

(** ** [app/services/index_store.py] *)
Module IndexStore.
Import Py.

Definition ALLOWED_EXTENSIONS : list string := [".md"; ".markdown"].

Definition CSV_COLUMNS : list string :=
  ["filename"; "title"; "description"; "is_public"; "date_uploaded";
   "updated_at"].

Definition _parse_bool (value : option string) (default : bool) : bool :=
  match value with
  | None => default
  | Some v =>
      if decide (v = "") then default
      else bool_decide (lower (strip v) ∈ ["1"; "true"; "yes"; "y"])
  end.

Definition _bool_str (value : bool) : string :=
  if value then "true" else "false".

(** the characters of the class [A-Za-z0-9_-] *)
Definition in_name_class (c : ascii) : bool :=
  let n := nat_of_ascii c in
  ((65 <=? n) && (n <=? 90)) || ((97 <=? n) && (n <=? 122))
  || ((48 <=? n) && (n <=? 57)) || (n =? 95) || (n =? 45).

Definition sanitize_filename (original_name : string) : outcome string :=
  let base := basename original_name in
  let '(name, ext) := splitext base in
  let ext := lower ext in
  if bool_decide (ext ∈ ALLOWED_EXTENSIONS) then
    let name :=
      strip_chars "_"
        (str (re_sub_runs (λ c, negb (in_name_class c)) (chars "_") false
                (chars name))) in
    let name := if decide (name = "") then "document" else name in
    Returned (name +:+ ext)
  else Raised (ValueError "Unsupported file extension").

Record IndexRow := {
  filename : string;
  title : string;
  description : string;
  is_public : bool;
  date_uploaded : string;
  updated_at : string;
}.

Definition set_title (v : string) (row : IndexRow) : IndexRow :=
  {| filename := filename row; title := v; description := description row;
     is_public := is_public row; date_uploaded := date_uploaded row;
     updated_at := updated_at row |}.

Definition set_description (v : string) (row : IndexRow) : IndexRow :=
  {| filename := filename row; title := title row; description := v;
     is_public := is_public row; date_uploaded := date_uploaded row;
     updated_at := updated_at row |}.

Definition set_is_public (v : bool) (row : IndexRow) : IndexRow :=
  {| filename := filename row; title := title row;
     description := description row; is_public := v;
     date_uploaded := date_uploaded row; updated_at := updated_at row |}.

Definition set_updated_at (v : string) (row : IndexRow) : IndexRow :=
  {| filename := filename row; title := title row;
     description := description row; is_public := is_public row;
     date_uploaded := date_uploaded row; updated_at := v |}.

(** What lies under [base_path]: the files of [markdown_files/] and of
    [prompts/] by name, and [database/index.csv] when it exists. *)
Record disk := {
  markdown_dir : gmap string string;
  prompts_dir : gmap string string;
  index_csv : option (list (list string));
}.

(** [csv.DictReader]: the first row names the fields; empty rows are
    passed over; a field beyond the end of a short row reads [None], which
    [record.get] does not tell from an absent key. *)
Definition dict_of_row (fieldnames row : list string) : gmap string string :=
  foldl (λ d key, delete key d)
    (foldl (λ d kv, <[kv.1 := kv.2]> d) ∅ (zip fieldnames row))
    (drop (length row) fieldnames).

Definition DictReader (file : list (list string))
  : list (gmap string string) :=
  match file with
  | [] => []
  | fieldnames :: rows =>
      map (dict_of_row fieldnames) (filter (λ row, row ≠ []) rows)
  end.

(** [csv.DictWriter.writerow]: the fields in the order of [fieldnames] *)
Definition writerow (fieldnames : list string) (d : gmap string string)
  : list string :=
  map (λ key, default "" (d !! key)) fieldnames.

(** [record.get(key) or fallback] *)
Definition get_or (record : gmap string string) (key fallback : string)
  : string :=
  match record !! key with
  | Some v => if decide (v = "") then fallback else v
  | None => fallback
  end.

Definition row_of_record (today : string) (record : gmap string string)
  : option IndexRow :=
  let filename := strip (get_or record "filename" "") in
  if decide (filename = "") then None
  else Some {|
    filename := filename;
    title := strip (get_or record "title" "");
    description := strip (get_or record "description" "");
    is_public := _parse_bool (record !! "is_public") true;
    date_uploaded := strip (get_or record "date_uploaded" today);
    updated_at := strip (get_or record "updated_at" "");
  |}.

(** The rows that the loop of [_read_rows] collects. This is what the
    call returns for a file that the reader reads to its end; the error of
    the reader is added in [_read_rows_or_raise] below. *)
Definition _read_rows (today : string) (d : disk) : list IndexRow :=
  match index_csv d with
  | None => []
  | Some file => omap (row_of_record today) (DictReader file)
  end.

(** The [csv] module bounds the size of a field: a reader that meets a
    field of more than [csv.field_size_limit()] characters, 131072 as the
    program leaves it, raises [_csv.Error]. The writer knows no bound. *)
Definition field_size_limit : N := 131072.

Definition within_field_limit (field : string) : bool :=
  (N.of_nat (len field) <=? field_size_limit)%N.

(** The file is one that [csv.reader] reads to its end. *)
Definition readable (d : disk) : bool :=
  match index_csv d with
  | None => true
  | Some file => forallb (forallb within_field_limit) file
  end.

(** [_read_rows] with the error of the reader. The loop consumes the whole
    file, so a field beyond the bound anywhere in it makes the call raise;
    [_read_rows] above is the list of rows that the call returns
    otherwise. *)
Definition _read_rows_or_raise (today : string) (d : disk)
  : outcome (list IndexRow) :=
  if readable d then Returned (_read_rows today d)
  else Raised (CsvError "field larger than field limit (131072)").

Definition record_of_row (row : IndexRow) : gmap string string :=
  <["filename" := filename row]>
  (<["title" := title row]>
  (<["description" := description row]>
  (<["is_public" := _bool_str (is_public row)]>
  (<["date_uploaded" := date_uploaded row]>
  (<["updated_at" := updated_at row]> ∅))))).

(** [_write_rows] replaces the file by the header and one row for each
    record. The writer takes fields of any size, also those that the
    reader will refuse. *)
Definition _write_rows (rows : list IndexRow) (d : disk) : disk :=
  {| markdown_dir := markdown_dir d;
     prompts_dir := prompts_dir d;
     index_csv :=
       Some (CSV_COLUMNS
             :: map (λ row, writerow CSV_COLUMNS (record_of_row row)) rows)
  |}.

Definition list_rows (today : string) (d : disk) : list IndexRow :=
  _read_rows today d.

Definition get_row (today : string) (name : string) (d : disk)
  : option IndexRow :=
  snd <$> list_find (λ row, filename row = name) (_read_rows today d).

(** The loop of [upsert_row] on the rows it has read: the first row of
    the same filename is overwritten, and the row is appended when the
    loop ends without a match. *)
Definition upsert (row : IndexRow) (rows : list IndexRow) : list IndexRow :=
  match list_find (λ existing, filename existing = filename row) rows with
  | Some (idx, _) => <[idx := row]> rows
  | None => rows ++ [row]
  end.

Definition upsert_row (today : string) (row : IndexRow) (d : disk) : disk :=
  _write_rows (upsert row (_read_rows today d)) d.

(** [get_row] and [upsert_row] with the error of the reader: both read
    the table first, and [upsert_row] writes nothing when the read
    raises. *)
Definition get_row_or_raise (today : string) (name : string) (d : disk)
  : outcome (option IndexRow) :=
  match _read_rows_or_raise today d with
  | Returned rows =>
      Returned (snd <$> list_find (λ row, filename row = name) rows)
  | Raised e => Raised e
  end.

Definition upsert_row_or_raise (today : string) (row : IndexRow) (d : disk)
  : outcome unit * disk :=
  match _read_rows_or_raise today d with
  | Returned rows => (Returned tt, _write_rows (upsert row rows) d)
  | Raised e => (Raised e, d)
  end.

Definition delete_row (today : string) (name : string) (d : disk) : disk :=
  _write_rows (filter (λ row, filename row ≠ name) (_read_rows today d)) d.

Definition toggle_public (today now : string) (name : string) (v : bool)
  (d : disk) : disk :=
  _write_rows
    (map (λ row, if decide (filename row = name)
                 then set_updated_at now (set_is_public v row)
                 else row)
       (_read_rows today d)) d.

(** The [while True] loop of [ensure_unique_filename]; [None] when the
    fuel runs out before a free name is met. *)
Fixpoint ensure_unique_loop (fuel : nat) (dir : gmap string string)
  (name ext : string) (counter : nat) : option string :=
  match fuel with
  | 0 => None
  | S fuel' =>
      let candidate := name +:+ "-" +:+ str_of_nat counter +:+ ext in
      match dir !! candidate with
      | None => Some candidate
      | Some _ => ensure_unique_loop fuel' dir name ext (S counter)
      end
  end.

(** The directory holds finitely many names, so one more round than it
    has files is enough fuel. *)
Definition ensure_unique_filename (d : disk) (name : string)
  : option string :=
  match markdown_dir d !! name with
  | None => Some name
  | Some _ =>
      let '(stem, ext) := splitext name in
      ensure_unique_loop (S (size (markdown_dir d))) (markdown_dir d)
        stem ext 1
  end.

Definition write_bytes (name content : string) (d : disk) : disk :=
  {| markdown_dir := <[name := content]> (markdown_dir d);
     prompts_dir := prompts_dir d;
     index_csv := index_csv d |}.

(** [None]: out of fuel; otherwise the value returned or the exception
    raised, and the disk afterwards. *)
Definition save_markdown_file (name content : string) (d : disk)
  : option (outcome string * disk) :=
  match sanitize_filename name with
  | Raised e => Some (Raised e, d)
  | Returned sanitized =>
      unique_name ← ensure_unique_filename d sanitized;
      Some (Returned unique_name, write_bytes unique_name content d)
  end.

(** The components of a relative path, cut at the separators. *)
Fixpoint split_on (sep : ascii) (s : list ascii) : list (list ascii) :=
  match s with
  | [] => [[]]
  | c :: s' =>
      if Ascii.eqb c sep then [] :: split_on sep s'
      else
        match split_on sep s' with
        | part :: parts => (c :: part) :: parts
        | [] => [[c]]
        end
  end.

Definition path_parts (name : string) : list string :=
  map str (split_on "/"%char (chars name)).

(** The length of a name in bytes, as the file system counts it: the
    code points from 128 on take two bytes in UTF-8. *)
Definition utf8_len (name : string) : nat :=
  sum_list (map (λ c, if nat_of_ascii c <? 128 then 1 else 2) (chars name)).

(** A name that is a single component and names an entry of a directory:
    not empty, without a separator, neither of the dot names, and within
    the 255 bytes that a file system allows for a name. *)
Definition plain_name (name : string) : bool :=
  negb (bool_decide (name ∈ [""; "."; ".."]))
  && negb (bool_decide ("/"%char ∈ chars name))
  && (utf8_len name <=? 255).

(** What a path can name of the things that [disk] holds. *)
Inductive entry :=
| markdown_file (name : string)
| prompt_file (name : string)
| index_file.

(** Where [self.markdown_dir / name] leads. The name is joined to the
    directory as it is given: a plain name is an entry of [markdown_files/],
    and a name that climbs out of the directory leads to the entries of
    the directories beside it, [database/index.csv] among them. [None]
    stands for every other path: it names something that [disk] does not
    describe. *)
Definition markdown_path (name : string) : option entry :=
  match path_parts name with
  | [file] => if plain_name file then Some (markdown_file file) else None
  | [up; dir; file] =>
      if negb (bool_decide (up = "..")) then None
      else if bool_decide (dir = "markdown_files") then
        if plain_name file then Some (markdown_file file) else None
      else if bool_decide (dir = "prompts") then
        if plain_name file then Some (prompt_file file) else None
      else if bool_decide (dir = "database") && bool_decide (file = "index.csv")
      then Some index_file
      else None
  | _ => None
  end.

(** [delete_markdown_file] unlinks what the path names when it exists;
    [None] when the path leads out of what [disk] describes. *)
Definition delete_markdown_file (name : string) (d : disk) : option disk :=
  match markdown_path name with
  | Some (markdown_file file) =>
      Some {| markdown_dir := delete file (markdown_dir d);
              prompts_dir := prompts_dir d;
              index_csv := index_csv d |}
  | Some (prompt_file file) =>
      Some {| markdown_dir := markdown_dir d;
              prompts_dir := delete file (prompts_dir d);
              index_csv := index_csv d |}
  | Some index_file =>
      Some {| markdown_dir := markdown_dir d;
              prompts_dir := prompts_dir d;
              index_csv := None |}
  | None => None
  end.

(** [value or fallback] for an optional string *)
Definition or_else (value : option string) (fallback : string) : string :=
  match value with
  | Some v => if decide (v = "") then fallback else v
  | None => fallback
  end.

Definition build_row (today now : string) (name title description : string)
  (is_public : bool) (date_uploaded : option string) : IndexRow :=
  {| filename := name;
     title := title;
     description := description;
     is_public := is_public;
     date_uploaded := or_else date_uploaded today;
     updated_at := now |}.

(** The body of the loop of [update_missing_metadata] for one row. *)
Definition apply_update (now : string)
  (updates : gmap string (gmap string string)) (row : IndexRow) : IndexRow :=
  match updates !! filename row with
  | None => row
  | Some update =>
      let row := match update !! "title" with
                 | Some t => if decide (t = "") then row else set_title t row
                 | None => row
                 end in
      let row := match update !! "description" with
                 | Some t =>
                     if decide (t = "") then row else set_description t row
                 | None => row
                 end in
      set_updated_at now row
  end.

Definition update_missing_metadata (today now : string)
  (updates : gmap string (gmap string string)) (d : disk) : disk :=
  if decide (updates = ∅) then d
  else _write_rows (map (apply_update now updates) (_read_rows today d)) d.

End IndexStore.

(** ** [app/services/search_service.py] *)
Module SearchService.
Import Py.

Record SearchResult := {
  snippet : string;
  filename : string;
}.

(** The query that [_build_query] hands to the engine: a [match_phrase]
    on the content, or a [query_string] over the content field with
    operator AND, case-insensitive. *)
Inductive es_query :=
| match_phrase (content : string)
| query_string (query : string).

(** The body of a search request; the highlight settings are constant
    (fragments of 50 characters, 5 per document, empty tags). *)
Record search_body := {
  must : list es_query;
  filter_is_public : bool;
  size : nat;
}.

(** What the service asks of the Elasticsearch client. *)
Inductive request :=
| indices_exists (index : string)
| indices_create (index : string)
| index_req (index id : string) (doc_filename doc_content : string)
    (doc_is_public : bool)
| delete_req (index id : string)
| update_req (index id : string) (doc_is_public : bool)
| search_req (index : string) (body : search_body).

(** One hit of a search response: [_source.filename] and
    [highlight.content] when present. *)
Record es_hit := {
  source_filename : option string;
  highlight_content : list string;
}.

(** The Elasticsearch client. The engine is outside the program: each
    method answers from the requests served so far and its arguments,
    with a value or with an exception. *)
Record Elasticsearch := {
  es_exists : list request → string → outcome bool;
  es_create : list request → string → outcome unit;
  es_index : list request → string → string → string → string → bool
             → outcome unit;
  es_delete : list request → string → string → outcome unit;
  es_update : list request → string → string → bool → outcome unit;
  es_search : list request → string → search_body → outcome (list es_hit);
}.

(** The fields of a [SearchService] object. *)
Record service := {
  index_name : string;
  _index_ready : bool;
  client : option Elasticsearch;
}.

Definition set_index_ready (v : bool) (self : service) : service :=
  {| index_name := index_name self; _index_ready := v;
     client := client self |}.

(** A method runs on the object and on the requests sent so far; it
    returns or raises, and leaves both behind. *)
Definition state : Type := service * list request.
Definition M (A : Type) : Type := state → outcome A * state.

Definition ret {A} (a : A) : M A := λ st, (Returned a, st).

Definition bind {A B} (m : M A) (k : A → M B) : M B :=
  λ st, match m st with
        | (Returned a, st') => k a st'
        | (Raised e, st') => (Raised e, st')
        end.

(** [try: body except Exception: handler] *)
Definition try_except {A} (body : M A) (handler : exn → M A) : M A :=
  λ st, match body st with
        | (Returned a, st') => (Returned a, st')
        | (Raised e, st') => handler e st'
        end.

(** One call of a client method: the request is sent (recorded) and the
    engine's answer is returned or raised. *)
Definition call {A} (req : request) (answer : list request → outcome A)
  : M A :=
  λ '(self, sent), (answer sent, (self, sent ++ [req])).

Definition get_self : M service := λ st, (Returned st.1, st).

Definition put_self (self : service) : M unit :=
  λ '(_, sent), (Returned tt, (self, sent)).

Notation "x <- m ;; k" := (bind m (λ x, k))
  (at level 100, m at next level, right associativity).
Notation "m >> k" := (bind m (λ _, k))
  (at level 100, right associativity).


Definition ensure_index : M unit :=
  self <- get_self ;;
  match client self with
  | None => ret tt
  | Some es =>
      if _index_ready self then ret tt
      else
        try_except
          (exists_ <- call (indices_exists (index_name self))
                        (λ sent, es_exists es sent (index_name self)) ;;
           (if exists_ : bool then ret tt
            else call (indices_create (index_name self))
                   (λ sent, es_create es sent (index_name self))) >>
           put_self (set_index_ready true self))
          (λ exc, ret tt)
  end.

Definition index_document (name content : string) (is_public : bool)
  : M unit :=
  self <- get_self ;;
  match client self with
  | None => ret tt
  | Some es =>
      ensure_index >>
      try_except
        (call (index_req (index_name self) name name content is_public)
           (λ sent, es_index es sent (index_name self) name name content
                      is_public))
        (λ exc, ret tt)
  end.

Definition delete_document (name : string) : M unit :=
  self <- get_self ;;
  match client self with
  | None => ret tt
  | Some es =>
      ensure_index >>
      try_except
        (call (delete_req (index_name self) name)
           (λ sent, es_delete es sent (index_name self) name))
        (λ exc, ret tt)
  end.

Definition update_visibility (name : string) (is_public : bool) : M unit :=
  self <- get_self ;;
  match client self with
  | None => ret tt
  | Some es =>
      ensure_index >>
      try_except
        (call (update_req (index_name self) name is_public)
           (λ sent, es_update es sent (index_name self) name is_public))
        (λ exc, ret tt)
  end.

(** the characters that [_escape_query_string] prefixes with a backslash *)
Definition is_reserved (c : ascii) : bool :=
  bool_decide (c ∈ chars "+-=&|><!(){}[]^~:/\") || Ascii.eqb c dquote.

Definition _escape_query_string (value : string) : string :=
  str (flat_map (λ c, if is_reserved c then ["\"%char; c] else [c])
         (chars value)).

Definition _build_query (query : string) : es_query :=
  match first_quoted (chars query) with
  | Some phrase => match_phrase (strip (str phrase))
  | None =>
      let terms := split query in
      let escaped :=
        map (λ term, "*" +:+ _escape_query_string term +:+ "*")
          (filter (λ term, term ≠ "") terms) in
      query_string (join " " escaped)
  end.

(** The loop of [search] over the hits of a response. *)
Definition results_of_hits (hits : list es_hit) : list SearchResult :=
  flat_map
    (λ hit,
       let name := default "" (source_filename hit) in
       match highlight_content hit with
       | [] => [ {| snippet := ""; filename := name |} ]
       | fragments =>
           map (λ fragment, {| snippet := fragment; filename := name |})
             fragments
       end)
    hits.

(** [None] is the value Python's [None]: the engine is not available. *)
Definition search (query : string) (public_only : bool) (size : nat)
  : M (option (list SearchResult)) :=
  self <- get_self ;;
  match client self with
  | None => ret None
  | Some es =>
      ensure_index >>
      let query := strip query in
      if decide (query = "") then ret (Some [])
      else
        let body := {| must := [_build_query query];
                       filter_is_public := public_only;
                       size := size |} in
        try_except
          (hits <- call (search_req (index_name self) body)
                    (λ sent, es_search es sent (index_name self) body) ;;
           ret (Some (results_of_hits hits)))
          (λ exc, ret None)
  end.

End SearchService.

(** ** The search and enrichment helpers of [app/main.py] *)
Module Main.
Import Py IndexStore.

Abbreviation SearchResult := SearchService.SearchResult.

Definition newline : string := Eval cbv in str [ascii_of_nat 10].

Definition _load_prompt (d : disk) (markdown_text : string) : string :=
  let template :=
    match prompts_dir d !! "summarize_markdown.md" with
    | Some text => text
    | None =>
        "Summarize the markdown and return JSON with keys title and description. "
        +:+ "Use a concise title and a 1-3 sentence description with an animated tone and "
        +:+ "emojis where appropriate." +:+ newline +:+ "Markdown:" +:+ newline
        +:+ "{markdown_file_content}"
    end in
  replace template "{markdown_file_content}" markdown_text.

(** [not v] for the result of a [dict.get]: [None] and the empty string
    are false. *)
Definition falsy (v : option string) : bool :=
  match v with
  | Some s => bool_decide (s = "")
  | None => true
  end.

Section Enrichment.
(** [openai_service.generate_metadata]: the summarizer answers a prompt
    with a dict or with [None]. *)
Variable generate_metadata : string → option (gmap string string).

(** One round of the loop of [_build_metadata_updates]. *)
Definition metadata_step (d : disk)
  (existing : gmap string (gmap string string))
  (acc : gmap string (gmap string string) * nat) (name : string)
  : gmap string (gmap string string) * nat :=
  let '(updates, errors) := acc in
  match markdown_dir d !! name with
  | None => (updates, S errors)
  | Some content =>
      let prompt := _load_prompt d content in
      match generate_metadata prompt with
      | None => (updates, S errors)
      | Some generated =>
          if decide (generated = ∅) then (updates, S errors)
          else
            let title := strip (default "" (generated !! "title")) in
            let description :=
              strip (default "" (generated !! "description")) in
            let current : gmap string string :=
              default ∅ (existing !! name) in
            let payload : gmap string string := ∅ in
            let payload :=
              if negb (bool_decide (title = ""))
                 && falsy (current !! "title")
              then <["title" := title]> payload else payload in
            let payload :=
              if negb (bool_decide (description = ""))
                 && falsy (current !! "description")
              then <["description" := description]> payload
              else payload in
            if decide (payload = ∅) then (updates, errors)
            else (<[name := payload]> updates, errors)
      end
  end.

Definition _build_metadata_updates (d : disk) (filenames : list string)
  (existing : gmap string (gmap string string))
  : gmap string (gmap string string) * nat :=
  foldl (metadata_step d existing) (∅, 0) filenames.

End Enrichment.

Definition _extract_phrase (query : string) : option string :=
  (λ group, strip (str group)) <$> first_quoted (chars query).

(** The [while True] loop of [_find_matches]. It is entered with a
    non-empty term only, and then every round moves [start] forward. *)
Equations _find_matches_loop (content_lower term_lower : string)
  (nonempty : len term_lower ≠ 0) (start : nat) : list nat
  by wf (S (len content_lower) - start) lt :=
  _find_matches_loop content_lower term_lower nonempty start
    with Logic.inspect (find content_lower term_lower start) := {
    | exist _ None _ => [];
    | exist _ (Some idx) found =>
        idx :: _find_matches_loop content_lower term_lower nonempty
                 (idx + len term_lower) }.
Next Obligation.
  intros. apply find_bounds in found. lia.
Qed.

Definition _find_matches (content term : string) : list nat :=
  match decide (term = "") with
  | left _ => []
  | right nonempty =>
      _find_matches_loop (lower content) (lower term)
        (eq_ind_r (λ n, n ≠ 0) (len_nonempty term nonempty)
           (len_lower term)) 0
  end.

(** The accesses of the fallback scanner to the store and to the
    documents, in the order they are made. *)
Inductive access :=
| read_index
| path_exists (name : string)
| read_text (name : string).

(** The body of the loop over the matches of one document. *)
Definition hit_of_match (content term name : string) (window : nat)
  (start : nat) : SearchResult :=
  let end_ := start + len term in
  let snippet_start := Nat.max (start - window) 0 in
  let snippet_end := Nat.min (end_ + window) (len content) in
  let snippet := slice content snippet_start snippet_end in
  let snippet := if 0 <? snippet_start then "..." +:+ snippet else snippet in
  let snippet :=
    if snippet_end <? len content then snippet +:+ "..." else snippet in
  {| SearchService.snippet := snippet; SearchService.filename := name |}.

(** One round of the loop over the rows. *)
Definition scan_row (d : disk) (term : string) (window : nat)
  (acc : list SearchResult * list access) (row : IndexRow)
  : list SearchResult * list access :=
  let '(results, trace) := acc in
  match markdown_dir d !! filename row with
  | None => (results, trace ++ [path_exists (filename row)])
  | Some content =>
      (results
       ++ map (hit_of_match content term (filename row) window)
            (_find_matches content term),
       trace ++ [path_exists (filename row); read_text (filename row)])
  end.

(** The results, and the accesses made to compute them. *)
Definition _fallback_search (today : string) (d : disk) (query : string)
  (public_only : bool) : list SearchResult * list access :=
  let query := strip query in
  if decide (query = "") then ([], [])
  else
    let rows := list_rows today d in
    let rows :=
      if public_only then filter (λ row, is_public row = true) rows
      else rows in
    let phrase := _extract_phrase query in
    let term := or_else phrase query in
    let window := 25 in
    let '(results, trace) :=
      foldl (scan_row d term window) ([], [read_index]) rows in
    (take 100 results, trace).


End Main.

(* ===================================================================== *)
(** * Part II: properties                                                 *)
(* ===================================================================== *)

(** ** Facts about the string built-ins *)
Module PyFacts.
Import Py.

Lemma chars_inj s1 s2 : chars s1 = chars s2 → s1 = s2.
Proof. intros H. by rewrite <- (str_chars s1), H, str_chars. Qed.

Lemma chars_empty s : chars s = [] ↔ s = "".
Proof.
  split; [|by intros ->]. intros H. apply chars_inj. by rewrite H.
Qed.

Lemma chars_app s1 s2 : chars (s1 +:+ s2) = chars s1 ++ chars s2.
Proof. induction s1 as [|c s1 IH]; simpl; [done|]. by rewrite IH. Qed.

Lemma append_assoc s1 s2 s3 : (s1 +:+ s2) +:+ s3 = s1 +:+ (s2 +:+ s3).
Proof. apply chars_inj. by rewrite !chars_app, app_assoc. Qed.

Lemma append_empty_r s : s +:+ "" = s.
Proof. apply chars_inj. by rewrite chars_app, app_nil_r. Qed.

Lemma len_app s1 s2 : len (s1 +:+ s2) = len s1 + len s2.
Proof. unfold len. by rewrite chars_app, length_app. Qed.

(** *** [strip] *)
Section Strip.
Variable p : ascii → bool.

Lemma lstrip_l_idemp l : lstrip_l p (lstrip_l p l) = lstrip_l p l.
Proof.
  induction l as [|c l IH]; simpl; [done|].
  destruct (p c) eqn:E; [done|]. simpl. by rewrite E.
Qed.

Lemma lstrip_l_snoc l c :
  p c = false → lstrip_l p (l ++ [c]) = lstrip_l p l ++ [c].
Proof.
  intros Hc. induction l as [|x l IH]; simpl; [by rewrite Hc|].
  by destruct (p x).
Qed.

Lemma lstrip_l_all l : Forall (λ c, p c = true) l → lstrip_l p l = [].
Proof. induction 1 as [|c l Hc _ IH]; simpl; [done|]. by rewrite Hc. Qed.

(** a text that loses nothing at either end *)
Definition trimmed (l : list ascii) : Prop :=
  lstrip_l p l = l ∧ lstrip_l p (rev l) = rev l.

Lemma rstrip_l_keeps_head l :
  lstrip_l p l = l → lstrip_l p (rstrip_l p l) = rstrip_l p l.
Proof.
  unfold rstrip_l. destruct l as [|c l]; [done|]. simpl.
  destruct (p c) eqn:E.
  - intros H. exfalso.
    assert (length (lstrip_l p l) ≤ length l) as Hle.
    { clear. induction l as [|x l IH]; simpl; [done|].
      destruct (p x); simpl; lia. }
    rewrite H in Hle. simpl in Hle. lia.
  - intros _. rewrite lstrip_l_snoc by done.
    rewrite rev_app_distr. simpl. by rewrite E.
Qed.

Lemma strip_l_trimmed l : trimmed (strip_l p l).
Proof.
  unfold trimmed, strip_l. split.
  - apply rstrip_l_keeps_head, lstrip_l_idemp.
  - unfold rstrip_l. rewrite rev_involutive. apply lstrip_l_idemp.
Qed.

Lemma trimmed_strip_l l : trimmed l → strip_l p l = l.
Proof.
  intros [H1 H2]. unfold strip_l, rstrip_l.
  by rewrite H1, H2, rev_involutive.
Qed.

Lemma strip_l_idemp l : strip_l p (strip_l p l) = strip_l p l.
Proof. apply trimmed_strip_l, strip_l_trimmed. Qed.

Lemma strip_l_all l : Forall (λ c, p c = true) l → strip_l p l = [].
Proof. intros H. unfold strip_l. by rewrite lstrip_l_all. Qed.
End Strip.

Lemma strip_idemp s : strip (strip s) = strip s.
Proof. unfold strip. by rewrite chars_str, strip_l_idemp. Qed.

Lemma strip_whitespace s :
  Forall (λ c, isspace c = true) (chars s) → strip s = "".
Proof. intros H. unfold strip. by rewrite strip_l_all. Qed.

(** *** [startswith], [find] and slices *)

Lemma ascii_eqb_true c b : Ascii.eqb c b = true ↔ c = b.
Proof. apply Ascii.eqb_eq. Qed.

Lemma startswith_l_take s sub :
  startswith_l s sub = true ↔ take (length sub) s = sub.
Proof.
  revert s; induction sub as [|b sub IH]; intros [|c s]; simpl; try done.
  rewrite andb_true_iff, ascii_eqb_true, IH. split.
  - by intros [-> ->].
  - intros H. inversion H as [[Hc Hs]]. by rewrite !Hs.
Qed.

(** [sub] stands in the character list [s] at offset [i] *)
Definition at_offset (s sub : list ascii) (i : nat) : Prop :=
  take (length sub) (drop i s) = sub.

Lemma find_from_Some s sub i r :
  find_from s sub i = Some r →
  ∃ k, r = i + k ∧ at_offset s sub k ∧ ∀ j, j < k → ¬ at_offset s sub j.
Proof.
  revert i; induction s as [|c s IH]; intros i; cbn [find_from].
  - destruct (startswith_l [] sub) eqn:E; [|done].
    intros Hr; inversion Hr; subst. exists 0. split; [lia|].
    split; [by apply startswith_l_take|]. intros; lia.
  - destruct (startswith_l (c :: s) sub) eqn:E.
    + intros Hr; inversion Hr; subst. exists 0. split; [lia|].
      split; [by apply startswith_l_take|]. intros; lia.
    + intros (k & -> & Hk & Hmin)%IH. exists (S k). split; [lia|].
      split; [done|]. intros [|j] Hj.
      * unfold at_offset. simpl. rewrite <- startswith_l_take.
        by rewrite E.
      * apply (Hmin j). lia.
Qed.

Lemma find_from_None s sub i :
  find_from s sub i = None → ∀ j, j ≤ length s → ¬ at_offset s sub j.
Proof.
  revert i; induction s as [|c s IH]; intros i; cbn [find_from].
  - destruct (startswith_l [] sub) eqn:E; [done|]. intros _ j Hj.
    assert (j = 0) as -> by (simpl in Hj; lia).
    unfold at_offset. simpl. rewrite <- (startswith_l_take []).
    by rewrite E.
  - destruct (startswith_l (c :: s) sub) eqn:E; [done|].
    intros H [|j] Hj.
    + unfold at_offset. simpl. rewrite <- startswith_l_take.
      by rewrite E.
    + apply (IH _ H j). simpl in Hj. lia.
Qed.

Lemma at_offset_drop s sub start k :
  at_offset (drop start s) sub k ↔ at_offset s sub (start + k).
Proof. unfold at_offset. by rewrite drop_drop. Qed.

Lemma at_offset_fits s sub i :
  sub ≠ [] → at_offset s sub i → i + length sub ≤ length s.
Proof.
  unfold at_offset. intros Hne H.
  assert (length (take (length sub) (drop i s)) = length sub) as Hl
    by (by rewrite H).
  rewrite length_take, length_drop in Hl.
  destruct sub; [done|]. cbn [length] in *. lia.
Qed.

(** [find]: the match found is the first one at or after [start] *)
Lemma find_Some s sub start r :
  find s sub start = Some r →
  start ≤ r ∧ at_offset (chars s) (chars sub) r
  ∧ ∀ j, start ≤ j → j < r → ¬ at_offset (chars s) (chars sub) j.
Proof.
  unfold find. destruct (start <=? len s) eqn:E; [|done].
  intros (k & -> & Hk & Hmin)%find_from_Some.
  split; [lia|]. split; [by apply at_offset_drop|].
  intros j Hj1 Hj2 Hj. apply (Hmin (j - start)); [lia|].
  apply at_offset_drop. by replace (start + (j - start)) with j by lia.
Qed.

Lemma find_None s sub start :
  chars sub ≠ [] → find s sub start = None →
  ∀ j, start ≤ j → ¬ at_offset (chars s) (chars sub) j.
Proof.
  unfold find. intros Hne Hf j Hj Hocc.
  pose proof (at_offset_fits _ _ _ Hne Hocc) as Hfit.
  destruct (start <=? len s) eqn:E.
  - apply (find_from_None _ _ _ Hf (j - start)).
    + rewrite length_drop. lia.
    + apply at_offset_drop. by replace (start + (j - start)) with j by lia.
  - apply Nat.leb_gt in E. unfold len in E.
    destruct (chars sub); [done|]. simpl in Hfit. lia.
Qed.

End PyFacts.

(** ** The fallback scanner *)
Module Scanner.
Import Py PyFacts IndexStore Main.

(** The lower-cased term stands in the lower-cased content at offset [i]:
    [content.lower()[i:i+len(term.lower())] == term.lower()]. The offset is
    one of [content.lower()], the text that [_find_matches] scans. *)
Definition occurs_at (content term : string) (i : nat) : Prop :=
  slice (lower content) i (i + len (lower term)) = lower term.

(** Consecutive offsets of [l] lie at least [n] apart. *)
Definition spaced (n : nat) (l : list nat) : Prop :=
  ∀ i j a b, i < j → l !! i = Some a → l !! j = Some b → a + n ≤ b.

(** The text that [hit_of_match] puts before or after the window. *)
Definition marker (cut : bool) : string := if cut then "..." else "".

(** The hits of one row: none when its file is missing. *)
Definition hits_of_row (d : disk) (term : string) (window : nat)
  (row : IndexRow) : list SearchResult :=
  match markdown_dir d !! filename row with
  | None => []
  | Some content =>
      map (hit_of_match content term (filename row) window)
        (_find_matches content term)
  end.

(** The term that [_fallback_search] looks for. *)
Definition term_of (query : string) : string :=
  or_else (_extract_phrase (strip query)) (strip query).

(** The rows that [_fallback_search] goes through: the rows of the table,
    the public ones only when [public_only] is set. *)
Definition rows_to_scan (today : string) (d : disk) (public_only : bool)
  : list IndexRow :=
  if public_only
  then filter (λ row, is_public row = true) (list_rows today d)
  else list_rows today d.

(** The number of offsets reported for the document of a row. *)
Definition matches_of_row (d : disk) (term : string) (row : IndexRow)
  : nat :=
  match markdown_dir d !! filename row with
  | None => 0
  | Some content => length (_find_matches content term)
  end.

Lemma occurs_at_offset content term i :
  occurs_at content term i
  ↔ at_offset (chars (lower content)) (chars (lower term)) i.
Proof.
  unfold occurs_at, at_offset, slice.
  replace (i + len (lower term) - i) with (len (lower term)) by lia.
  unfold len. split.
  - intros H. apply (f_equal chars) in H. by rewrite chars_str in H.
  - intros ->. apply str_chars.
Qed.

Lemma _find_matches_loop_unfold c t ne start :
  _find_matches_loop c t ne start =
  match find c t start with
  | None => []
  | Some idx => idx :: _find_matches_loop c t ne (idx + len t)
  end.
Proof.
  rewrite _find_matches_loop_equation_1.
  destruct (Logic.inspect (find c t start)) as [[idx|] Heq]; simpl;
    by rewrite Heq.
Qed.

(** The loop started at [start] reports occurrences only, each at or
    after [start], spaced by the length of the term, and leaves out only
    occurrences that begin inside a reported one. *)
Lemma _find_matches_loop_spec c t ne start :
  Forall (λ i, start ≤ i ∧ at_offset (chars c) (chars t) i)
    (_find_matches_loop c t ne start)
  ∧ spaced (len t) (_find_matches_loop c t ne start)
  ∧ ∀ j, start ≤ j → at_offset (chars c) (chars t) j →
      ∃ i, i ∈ _find_matches_loop c t ne start ∧ i ≤ j ∧ j < i + len t.
Proof.
  remember (S (len c) - start) as m eqn:Hm. revert start Hm.
  induction m as [m IH] using lt_wf_ind. intros start Hm.
  rewrite _find_matches_loop_unfold.
  assert (chars t ≠ []) as Hne by (intros E; apply ne; unfold len; by rewrite E).
  destruct (find c t start) as [idx|] eqn:Hf.
  - pose proof (find_bounds _ _ _ _ Hf) as [Hb1 Hb2].
    pose proof (find_Some _ _ _ _ Hf) as (_ & Hocc & Hmin).
    destruct (IH (S (len c) - (idx + len t)) ltac:(lia) (idx + len t) eq_refl)
      as (Hall & Hsp & Hcov).
    split; [|split].
    + constructor; [done|].
      eapply Forall_impl; [exact Hall|]. simpl. intros i [? ?].
      split; [lia|done].
    + intros [|i] [|j] a b Hij Ha Hb; simpl in *; try lia.
      * inversion Ha; subst.
        apply (proj1 (Forall_lookup _ _) Hall) in Hb. lia.
      * apply (Hsp i j); [lia|done..].
    + intros j Hj Hoccj.
      destruct (decide (j < idx)) as [Hlt|Hge].
      { by destruct (Hmin j Hj Hlt). }
      destruct (decide (j < idx + len t)) as [Hin|Hout].
      { exists idx. split; [left|lia]. }
      destruct (Hcov j ltac:(lia) Hoccj) as (i & Hi & ?).
      exists i. split; [by right|done].
  - split; [constructor|]. split.
    + intros i j a b _ Ha. by rewrite lookup_nil in Ha.
    + intros j Hj Hoccj. by destruct (find_None _ _ _ Hne Hf j Hj).
Qed.

Lemma _find_matches_nonempty content term (nonempty : term ≠ "") :
  ∃ ne, _find_matches content term
        = _find_matches_loop (lower content) (lower term) ne 0.
Proof.
  unfold _find_matches. destruct (decide (term = "")) as [|n]; [done|].
  by eexists.
Qed.

(** What the loop over the rows accumulates. *)
Lemma foldl_scan_row d term window rows results trace :
  (foldl (scan_row d term window) (results, trace) rows).1
  = results ++ flat_map (hits_of_row d term window) rows.
Proof.
  revert results trace; induction rows as [|row rows IH];
    intros results trace; cbn [foldl flat_map].
  - by rewrite app_nil_r.
  - destruct (scan_row d term window (results, trace) row) as [r' t'] eqn:E.
    rewrite IH.
    assert (r' = results ++ hits_of_row d term window row) as ->.
    { unfold scan_row in E. unfold hits_of_row.
      destruct (markdown_dir d !! filename row); inversion E; subst;
        by rewrite ?app_nil_r. }
    by rewrite <- app_assoc.
Qed.

(** The results of a search with a query that is not blank. *)
Lemma _fallback_search_results today d query public_only :
  strip query ≠ "" →
  (_fallback_search today d query public_only).1
  = take 100
      (flat_map (hits_of_row d (term_of query) 25)
         (if public_only
          then filter (λ row, is_public row = true) (list_rows today d)
          else list_rows today d)).
Proof.
  intros Hq. unfold _fallback_search, term_of.
  destruct (decide (strip query = "")); [done|].
  match goal with
  | |- context [foldl ?f ?a ?l] =>
      pose proof (foldl_scan_row d
        (or_else (_extract_phrase (strip query)) (strip query)) 25 l []
        [read_index]) as H;
      destruct (foldl f a l) as [results trace]
  end.
  simpl in *. by rewrite H.
Qed.

(** As many hits as offsets reported. *)
Lemma length_hits_of_rows d term window rows :
  length (flat_map (hits_of_row d term window) rows)
  = sum_list (map (matches_of_row d term) rows).
Proof.
  induction rows as [|row rows IH]; [done|].
  cbn [flat_map map sum_list sum_list_with]. rewrite length_app, IH. f_equal.
  unfold hits_of_row, matches_of_row.
  destruct (markdown_dir d !! filename row); [|done].
  by rewrite length_map.
Qed.

Lemma hit_of_match_snippet content term name window start :
  SearchService.snippet (hit_of_match content term name window start)
  = marker (0 <? start - window)
    +:+ slice content (start - window)
          (Nat.min (start + len term + window) (len content))
    +:+ marker (start + len term + window <? len content).
Proof.
  unfold hit_of_match, marker. cbn [SearchService.snippet].
  rewrite Nat.max_0_r.
  assert ((Nat.min (start + len term + window) (len content) <? len content)
          = (start + len term + window <? len content)) as ->.
  { destruct (start + len term + window <? len content) eqn:E.
    - apply Nat.ltb_lt in E. apply Nat.ltb_lt. lia.
    - apply Nat.ltb_ge in E. apply Nat.ltb_ge. lia. }
  destruct (0 <? start - window);
    destruct (start + len term + window <? len content); cbn [String.append].
  - by rewrite append_assoc.
  - by rewrite append_empty_r.
  - done.
  - by rewrite append_empty_r.
Qed.

Lemma marker_start start window :
  (0 <? start - window) = (window <? start).
Proof.
  destruct (window <? start) eqn:E.
  - apply Nat.ltb_lt in E. apply Nat.ltb_lt. lia.
  - apply Nat.ltb_ge in E. apply Nat.ltb_ge. lia.
Qed.

(** A hit comes from a listed row whose file exists and from a match of
    the term in that file. *)
Lemma hit_origin today d query public_only hit :
  hit ∈ (_fallback_search today d query public_only).1 →
  ∃ row content start,
    row ∈ list_rows today d
    ∧ markdown_dir d !! filename row = Some content
    ∧ start ∈ _find_matches content (term_of query)
    ∧ hit = hit_of_match content (term_of query) (filename row) 25 start.
Proof.
  destruct (decide (strip query = "")) as [Hq|Hq].
  { unfold _fallback_search. rewrite decide_True by done. simpl.
    by intros ?%elem_of_nil. }
  rewrite _fallback_search_results by done.
  intros (k & Hhit%list_elem_of_lookup_2 & _)%elem_of_take.
  apply list_elem_of_In, in_flat_map in Hhit.
  destruct Hhit as (row & Hrow & Hhit).
  unfold hits_of_row in Hhit.
  destruct (markdown_dir d !! filename row) as [content|] eqn:Hfile;
    [|done].
  apply in_map_iff in Hhit as (start & <- & Hstart).
  apply list_elem_of_In in Hrow. apply list_elem_of_In in Hstart.
  exists row, content, start. split; [|done].
  destruct public_only; [|done].
  by apply list_elem_of_filter in Hrow as [_ ?].
Qed.

(** A document of 200 characters in which the term test stands at
    offset 100 and nowhere else, and a store that lists it. *)
Definition example_document : string :=
  Eval vm_compute in
    str (repeat "x"%char 100 ++ chars "test" ++ repeat "x"%char 96).

Definition example_disk (name content : string) : disk :=
  write_bytes name content
    (_write_rows
       [build_row "2026-01-01" "2026-01-01 00:00:00" name "" "" true None]
       {| markdown_dir := ∅; prompts_dir := ∅; index_csv := None |}).

(** C3 (as amended). Every hit of the fallback scanner stems from a
    match of the term at some offset [start] of a listed document, and
    its snippet is the window of 25 characters on each side of the match,
    cut at the ends of the document. The marker [...] is put in front
    exactly when the snippet begins after the start of the document
    ([25 < start]) and behind exactly when it ends before the end of
    the document: the markers tell that text is left out, so they are
    absent where the window meets the document boundary. For a term of 4
    characters at offset 100 of a document of 200 characters the snippet
    is the characters 75 to 129 with both markers present. *)
Theorem C3_snippet_window today d query public_only hit :
  hit ∈ (_fallback_search today d query public_only).1 →
  ∃ row content start,
    row ∈ list_rows today d
    ∧ markdown_dir d !! filename row = Some content
    ∧ start ∈ _find_matches content (term_of query)
    ∧ SearchService.filename hit = filename row
    ∧ SearchService.snippet hit
      = marker (25 <? start)
        +:+ slice content (start - 25)
              (Nat.min (start + len (term_of query) + 25) (len content))
        +:+ marker (start + len (term_of query) + 25 <? len content)
    ∧ (len content = 200 → len (term_of query) = 4 → start = 100 →
       SearchService.snippet hit
       = "..." +:+ slice content 75 129 +:+ "...").
Proof.
  intros (row & content & start & Hrow & Hfile & Hstart & ->)%hit_origin.
  exists row, content, start. repeat (split; [done|]).
  rewrite hit_of_match_snippet, marker_start. split; [done|].
  by intros -> -> ->.
Qed.

Lemma C3_snippet_window_witness :
  ∃ row content start,
    row ∈ list_rows "2026-01-02" (example_disk "doc.md" example_document)
    ∧ markdown_dir (example_disk "doc.md" example_document)
        !! filename row = Some content
    ∧ start ∈ _find_matches content (term_of "test")
    ∧ "doc.md" = filename row
    ∧ "...xxxxxxxxxxxxxxxxxxxxxxxxxtestxxxxxxxxxxxxxxxxxxxxxxxxx..."
      = marker (25 <? start)
        +:+ slice content (start - 25)
              (Nat.min (start + len (term_of "test") + 25) (len content))
        +:+ marker (start + len (term_of "test") + 25 <? len content)
    ∧ (len content = 200 → len (term_of "test") = 4 → start = 100 →
       "...xxxxxxxxxxxxxxxxxxxxxxxxxtestxxxxxxxxxxxxxxxxxxxxxxxxx..."
       = "..." +:+ slice content 75 129 +:+ "...").
Proof.
  apply (C3_snippet_window "2026-01-02"
           (example_disk "doc.md" example_document) "test" false
           {| SearchService.snippet :=
                "...xxxxxxxxxxxxxxxxxxxxxxxxxtestxxxxxxxxxxxxxxxxxxxxxxxxx...";
              SearchService.filename := "doc.md" |}).
  vm_compute. constructor.
Defined.

(** C3, the claim as it stands, fails: the document has 200 characters,
    the term test stands at offset 100 only, and the one hit carries both
    markers around the characters 75 to 129. *)
Lemma C3_counterexample :
  len example_document = 200
  ∧ _find_matches example_document "test" = [100]
  ∧ (_fallback_search "2026-01-02" (example_disk "doc.md" example_document)
       "test" false).1
    = [ {| SearchService.snippet :=
             "..." +:+ slice example_document 75 129 +:+ "...";
           SearchService.filename := "doc.md" |} ]
  ∧ "..." +:+ slice example_document 75 129 +:+ "..."
    ≠ slice example_document 75 129.
Proof. vm_compute. by repeat split. Qed.

(** C4 (as amended). For a non-empty term, [_find_matches] scans the
    lower-cased content for the lower-cased term from left to right and
    resumes behind each match: every reported offset is an occurrence,
    reported offsets lie at least the length of the lower-cased term apart,
    and an occurrence that is not reported begins inside a reported one, so
    occurrences that overlap an earlier match are skipped. Offsets are
    counted in the lower-cased content. The scanner emits one hit per
    reported offset, the listed documents in the order of the table and the
    offsets of a document in the order of the scan, and it returns the
    first 100 of these hits only: for a table that lists one document, the
    hits of its reported offsets, cut after the hundredth. *)
Theorem C4_matches_left_to_right content term :
  term ≠ "" →
  (∀ i, i ∈ _find_matches content term → occurs_at content term i)
  ∧ spaced (len (lower term)) (_find_matches content term)
  ∧ (∀ j, occurs_at content term j →
       ∃ i, i ∈ _find_matches content term
            ∧ i ≤ j ∧ j < i + len (lower term))
  ∧ (∀ today d query public_only,
       strip query ≠ "" → term_of query = term →
       (_fallback_search today d query public_only).1
       = take 100
           (flat_map (hits_of_row d term 25)
              (rows_to_scan today d public_only))
       ∧ length (_fallback_search today d query public_only).1
         = Nat.min 100
             (sum_list
                (map (matches_of_row d term)
                   (rows_to_scan today d public_only)))
       ∧ (∀ row,
            rows_to_scan today d public_only = [row] →
            markdown_dir d !! filename row = Some content →
            (_fallback_search today d query public_only).1
            = take 100
                (map (hit_of_match content term (filename row) 25)
                   (_find_matches content term)))).
Proof.
  intros Hterm.
  destruct (_find_matches_nonempty content term Hterm) as [ne Hms].
  destruct (_find_matches_loop_spec (lower content) (lower term) ne 0)
    as (Hall & Hsp & Hcov).
  rewrite <- Hms in Hall, Hsp, Hcov. clear Hms.
  split; [|split; [|split]].
  - intros i Hi. apply occurs_at_offset.
    by apply (proj1 (Forall_forall _ _) Hall) in Hi as [_ ?].
  - done.
  - intros j Hj%occurs_at_offset.
    destruct (Hcov j ltac:(lia) Hj) as (i & ? & ? & ?). by exists i.
  - intros today d query public_only Hq <-.
    rewrite _fallback_search_results by done.
    fold (rows_to_scan today d public_only).
    split; [done|]. split.
    + rewrite length_take, length_hits_of_rows. lia.
    + intros row -> Hfile. cbn [flat_map]. unfold hits_of_row.
      by rewrite Hfile, app_nil_r.
Qed.

Lemma C4_matches_left_to_right_witness :
  (∀ i, i ∈ _find_matches "abcAbc" "BC" → occurs_at "abcAbc" "BC" i)
  ∧ spaced (len (lower "BC")) (_find_matches "abcAbc" "BC")
  ∧ (∀ j, occurs_at "abcAbc" "BC" j →
       ∃ i, i ∈ _find_matches "abcAbc" "BC"
            ∧ i ≤ j ∧ j < i + len (lower "BC"))
  ∧ (∀ today d query public_only,
       strip query ≠ "" → term_of query = "BC" →
       (_fallback_search today d query public_only).1
       = take 100
           (flat_map (hits_of_row d "BC" 25)
              (rows_to_scan today d public_only))
       ∧ length (_fallback_search today d query public_only).1
         = Nat.min 100
             (sum_list
                (map (matches_of_row d "BC")
                   (rows_to_scan today d public_only)))
       ∧ (∀ row,
            rows_to_scan today d public_only = [row] →
            markdown_dir d !! filename row = Some "abcAbc" →
            (_fallback_search today d query public_only).1
            = take 100
                (map (hit_of_match "abcAbc" "BC" (filename row) 25)
                   (_find_matches "abcAbc" "BC")))).
Proof. apply (C4_matches_left_to_right "abcAbc" "BC"). done. Defined.

(** A document of 101 letters a. *)
Definition many_matches : string :=
  Eval vm_compute in str (repeat "a"%char 101).

(** C4, the claim as it stands, fails. In the text aaa the term aa occurs
    at the offsets 0 and 1, the scan reports offset 0 only and the scanner
    emits a single hit. And in a document of 101 letters a the term a is
    reported at 101 offsets, of which the scanner returns 100 hits. *)
Lemma C4_counterexample :
  occurs_at "aaa" "aa" 0 ∧ occurs_at "aaa" "aa" 1
  ∧ _find_matches "aaa" "aa" = [0]
  ∧ length (_fallback_search "2026-01-02" (example_disk "doc.md" "aaa")
              "aa" false).1 = 1
  ∧ length (_find_matches many_matches "a") = 101
  ∧ length (_fallback_search "2026-01-02"
              (example_disk "doc.md" many_matches) "a" false).1 = 100.
Proof. vm_compute. by repeat split. Qed.

End Scanner.

(** ** The search service *)
Module Engine.
Import Py PyFacts SearchService.

(** [ensure_index] never raises: what the engine raises is caught. *)
Lemma ensure_index_returns st : ∃ st', ensure_index st = (Returned tt, st').
Proof.
  destruct st as [self sent]. unfold ensure_index, bind, get_self. simpl.
  destruct (client self) as [es|]; [|by eexists].
  destruct (_index_ready self); [by eexists|].
  unfold try_except, bind, call, ret, put_self. simpl.
  destruct (es_exists es sent (index_name self)) as [[|]|e]; simpl;
    try by eexists.
  destruct (es_create es (sent ++ [indices_exists (index_name self)])
              (index_name self)) as [[]|e]; simpl; by eexists.
Qed.


Lemma ensure_index_ready self sent :
  _index_ready self = true →
  ensure_index (self, sent) = (Returned tt, (self, sent)).
Proof.
  intros H. unfold ensure_index, bind, get_self. simpl. rewrite H.
  by destruct (client self).
Qed.

(** Only the existence check and the creation of the index are sent by
    [ensure_index]. *)
Definition is_index_setup (req : request) : Prop :=
  match req with
  | indices_exists _ | indices_create _ => True
  | _ => False
  end.

Lemma ensure_index_requests self sent :
  ∃ new, (ensure_index (self, sent)).2.2 = sent ++ new
         ∧ Forall is_index_setup new.
Proof.
  unfold ensure_index, bind, get_self. simpl.
  destruct (client self) as [es|];
    [|exists []; by rewrite app_nil_r].
  destruct (_index_ready self); [exists []; by rewrite app_nil_r|].
  unfold try_except, bind, call, ret, put_self. simpl.
  destruct (es_exists es sent (index_name self)) as [[|]|e]; simpl.
  - exists [indices_exists (index_name self)]. split; [done|].
    by repeat constructor.
  - exists [indices_exists (index_name self);
            indices_create (index_name self)].
    split; [|by repeat constructor].
    by destruct (es_create es (sent ++ [indices_exists (index_name self)])
                   (index_name self)) as [[]|e]; simpl;
      rewrite <- app_assoc.
  - exists [indices_exists (index_name self)]. split; [done|].
    by repeat constructor.
Qed.

(** The body that [search] sends for a query. *)
Definition body_of (query : string) (public_only : bool) (size : nat)
  : search_body :=
  {| must := [_build_query (strip query)];
     filter_is_public := public_only;
     size := size |}.

(** [search] on a service with a client, once [ensure_index] is done. *)
Lemma search_enabled self sent es query public_only size :
  client self = Some es →
  search query public_only size (self, sent)
  = let st := (ensure_index (self, sent)).2 in
    if decide (strip query = "") then (Returned (Some []), st)
    else
      match es_search es st.2 (index_name self)
              (body_of query public_only size) with
      | Returned hits =>
          (Returned (Some (results_of_hits hits)),
           (st.1, st.2 ++ [search_req (index_name self)
                             (body_of query public_only size)]))
      | Raised e =>
          (Returned None,
           (st.1, st.2 ++ [search_req (index_name self)
                             (body_of query public_only size)]))
      end.
Proof.
  intros Hc. unfold search, bind at 1, get_self. simpl. rewrite Hc.
  unfold bind at 1.
  destruct (ensure_index_returns (self, sent)) as [[self' sent'] ->].
  simpl. destruct (decide (strip query = "")); [done|].
  unfold try_except, bind, call, ret, body_of. simpl.
  by destruct (es_search es sent' (index_name self) _).
Qed.

(** C9 (as amended). Without a client, [index_document],
    [update_visibility] and [delete_document] return at once, leaving the
    object as it was and sending nothing, and [search] returns [None], which
    is not the empty list of results. With any engine whatever, [search]
    returns and never raises. Which value it returns depends on where the
    engine failed. An exception of the index check, be it of the
    existence check or of the creation, is caught inside [ensure_index]:
    the index stays unmarked and [search] goes on. After that a blank
    query gives the empty list, and for any other query an
    exception of the search request gives [None], while an answer of the
    search request gives the results of its hits. *)
Theorem C9_engine_unavailable (self : service) (sent : list request)
    (name content query : string) (is_public public_only : bool)
    (size : nat) :
  (client self = None →
     index_document name content is_public (self, sent)
       = (Returned tt, (self, sent))
     ∧ update_visibility name is_public (self, sent)
       = (Returned tt, (self, sent))
     ∧ delete_document name (self, sent) = (Returned tt, (self, sent))
     ∧ search query public_only size (self, sent)
       = (Returned None, (self, sent)))
  ∧ (None : option (list SearchResult)) ≠ Some []
  ∧ (∃ results st',
       search query public_only size (self, sent) = (Returned results, st'))
  ∧ (∀ es e,
       client self = Some es → strip query ≠ "" →
       es_search es (ensure_index (self, sent)).2.2 (index_name self)
         (body_of query public_only size) = Raised e →
       (search query public_only size (self, sent)).1 = Returned None)
  ∧ (∀ es e,
       client self = Some es → _index_ready self = false →
       es_exists es sent (index_name self) = Raised e →
       ensure_index (self, sent)
       = (Returned tt, (self, sent ++ [indices_exists (index_name self)])))
  ∧ (∀ es e,
       client self = Some es → _index_ready self = false →
       es_exists es sent (index_name self) = Returned false →
       es_create es (sent ++ [indices_exists (index_name self)])
         (index_name self) = Raised e →
       ensure_index (self, sent)
       = (Returned tt,
          (self, sent ++ [indices_exists (index_name self);
                          indices_create (index_name self)])))
  ∧ (∀ es,
       client self = Some es → strip query = "" →
       (search query public_only size (self, sent)).1 = Returned (Some []))
  ∧ (∀ es hits,
       client self = Some es → strip query ≠ "" →
       es_search es (ensure_index (self, sent)).2.2 (index_name self)
         (body_of query public_only size) = Returned hits →
       (search query public_only size (self, sent)).1
       = Returned (Some (results_of_hits hits))).
Proof.
  split; [|split; [done|split; [|split; [|split; [|split; [|split]]]]]].
  - intros Hc.
    unfold index_document, update_visibility, delete_document, search,
      bind, get_self, ret. simpl. by rewrite Hc.
  - destruct (client self) as [es|] eqn:Hc.
    + rewrite (search_enabled _ _ es) by done. cbv zeta.
      destruct (decide (strip query = "")); [by eexists _, _|].
      destruct (es_search es _ _ _); by eexists _, _.
    + unfold search, bind, get_self, ret. simpl. rewrite Hc.
      by eexists _, _.
  - intros es e Hc Hq Hraise.
    rewrite (search_enabled _ _ es) by done. cbv zeta.
    rewrite decide_False by done. by rewrite Hraise.
  - intros es e Hc Hr Hraise.
    unfold ensure_index, bind at 1, get_self. simpl. rewrite Hc, Hr.
    unfold try_except, bind, call. simpl. by rewrite Hraise.
  - intros es e Hc Hr Habsent Hraise.
    unfold ensure_index, bind at 1, get_self. simpl. rewrite Hc, Hr.
    unfold try_except, bind, call. simpl. rewrite Habsent. simpl.
    rewrite Hraise. simpl. by rewrite <- app_assoc.
  - intros es Hc Hq.
    rewrite (search_enabled _ _ es) by done. cbv zeta.
    by rewrite decide_True.
  - intros es hits Hc Hq Hhits.
    rewrite (search_enabled _ _ es) by done. cbv zeta.
    rewrite decide_False by done. by rewrite Hhits.
Qed.

(** An engine that is down: every request raises. *)
Definition engine_down : Elasticsearch :=
  {| es_exists := λ _ _, Raised (EngineError "connection refused");
     es_create := λ _ _, Raised (EngineError "connection refused");
     es_index := λ _ _ _ _ _ _, Raised (EngineError "connection refused");
     es_delete := λ _ _ _, Raised (EngineError "connection refused");
     es_update := λ _ _ _ _, Raised (EngineError "connection refused");
     es_search := λ _ _ _, Raised (EngineError "connection refused") |}.

(** An engine that holds no document: every request succeeds, the index
    exists, a search has no hit. *)
Definition engine_empty : Elasticsearch :=
  {| es_exists := λ _ _, Returned true;
     es_create := λ _ _, Returned tt;
     es_index := λ _ _ _ _ _ _, Returned tt;
     es_delete := λ _ _ _, Returned tt;
     es_update := λ _ _ _ _, Returned tt;
     es_search := λ _ _ _, Returned [] |}.

(** An engine that refuses the requests on the index itself and answers
    every search with one hit. *)
Definition engine_no_index_access : Elasticsearch :=
  {| es_exists := λ _ _, Raised (EngineError "security_exception");
     es_create := λ _ _, Raised (EngineError "security_exception");
     es_index := λ _ _ _ _ _ _, Returned tt;
     es_delete := λ _ _ _, Returned tt;
     es_update := λ _ _ _ _, Returned tt;
     es_search := λ _ _ _,
       Returned [ {| source_filename := Some "a.md";
                     highlight_content := ["hello world"] |} ] |}.

Definition service_of (es : option Elasticsearch) : service :=
  {| index_name := "thedocs"; _index_ready := false; client := es |}.

Lemma C9_engine_unavailable_witness :
  (index_document "a.md" "text" true (service_of None, [])
     = (Returned tt, (service_of None, []))
   ∧ update_visibility "a.md" true (service_of None, [])
     = (Returned tt, (service_of None, []))
   ∧ delete_document "a.md" (service_of None, [])
     = (Returned tt, (service_of None, []))
   ∧ search "hello" false 50 (service_of None, [])
     = (Returned None, (service_of None, [])))
  ∧ (search "hello" false 50 (service_of (Some engine_down), [])).1
    = Returned None
  ∧ ensure_index (service_of (Some engine_down), [])
    = (Returned tt,
       (service_of (Some engine_down), [indices_exists "thedocs"]))
  ∧ (search "hello" false 50
       (service_of (Some engine_no_index_access), [])).1
    = Returned (Some [ {| snippet := "hello world"; filename := "a.md" |} ]).
Proof.
  split; [|split; [|split]].
  - apply (C9_engine_unavailable (service_of None) [] "a.md" "text"
             "hello" true false 50).
    reflexivity.
  - apply (C9_engine_unavailable (service_of (Some engine_down)) [] "a.md"
             "text" "hello" true false 50)
      with (es := engine_down) (e := EngineError "connection refused").
    + reflexivity.
    + vm_compute. discriminate.
    + reflexivity.
  - apply (C9_engine_unavailable (service_of (Some engine_down)) [] "a.md"
             "text" "hello" true false 50)
      with (es := engine_down) (e := EngineError "connection refused");
      reflexivity.
  - apply (C9_engine_unavailable (service_of (Some engine_no_index_access))
             [] "a.md" "text" "hello" true false 50
           : _ ∧ _ ∧ _ ∧ _ ∧ _ ∧ _ ∧ _ ∧ ∀ es hits, _)
      with (es := engine_no_index_access)
           (hits := [ {| source_filename := Some "a.md";
                         highlight_content := ["hello world"] |} ]).
    + reflexivity.
    + vm_compute. discriminate.
    + reflexivity.
Defined.

(** C9, the claim as it stands, fails: an error of the engine during
    [search] does not always become [None]. With an engine that is down
    altogether, a search for a blank query sends the existence check of the
    index, which raises, and returns the empty list of results. With an
    engine whose existence check raises and whose search request answers,
    [search] returns the results of the answer. *)
Lemma C9_counterexample :
  es_exists engine_down [] "thedocs"
  = Raised (EngineError "connection refused")
  ∧ search "  " false 50 (service_of (Some engine_down), [])
    = (Returned (Some []),
       (service_of (Some engine_down), [indices_exists "thedocs"]))
  ∧ es_exists engine_no_index_access [] "thedocs"
    = Raised (EngineError "security_exception")
  ∧ search "hello" false 50 (service_of (Some engine_no_index_access), [])
    = (Returned (Some [ {| snippet := "hello world"; filename := "a.md" |} ]),
       (service_of (Some engine_no_index_access),
        [indices_exists "thedocs";
         search_req "thedocs" (body_of "hello" false 50)])).
Proof. repeat split. Qed.

End Engine.

(** ** Blank queries *)
Module BlankQuery.
Import Py PyFacts SearchService Engine.

(** C10 (as amended). For a query that is empty or all whitespace,
    both paths return the empty list. The engine-backed [search], with a
    client configured, sends no search request: it runs [ensure_index]
    first, so the only requests it may send are the existence check and
    the creation of the index, and it sends nothing at all once the index
    is marked ready. The fallback scanner returns before it reads the
    index or any document. *)
Theorem C10_blank_query (self : service) (sent : list request)
    (es : Elasticsearch) (query : string) (public_only : bool) (size : nat)
    (today : string) (d : IndexStore.disk) :
  Forall (λ c, isspace c = true) (chars query) →
  (client self = Some es →
     search query public_only size (self, sent)
       = (Returned (Some []), (ensure_index (self, sent)).2)
     ∧ (∃ new, (search query public_only size (self, sent)).2.2
                 = sent ++ new
               ∧ Forall is_index_setup new)
     ∧ (_index_ready self = true →
          search query public_only size (self, sent)
            = (Returned (Some []), (self, sent))))
  ∧ Main._fallback_search today d query public_only = ([], []).
Proof.
  intros Hq%strip_whitespace. split.
  - intros Hc. rewrite (search_enabled _ _ es) by done. cbv zeta.
    rewrite decide_True by done. split; [done|]. split.
    + apply ensure_index_requests.
    + intros Hr. by rewrite ensure_index_ready.
  - unfold Main._fallback_search. by rewrite decide_True.
Qed.

Lemma C10_blank_query_witness :
  (search "  " true 50 (service_of (Some engine_empty), [])
     = (Returned (Some []),
        (ensure_index (service_of (Some engine_empty), [])).2)
   ∧ (∃ new, (search "  " true 50
                (service_of (Some engine_empty), [])).2.2 = [] ++ new
             ∧ Forall is_index_setup new)
   ∧ (_index_ready (service_of (Some engine_empty)) = true →
        search "  " true 50 (service_of (Some engine_empty), [])
          = (Returned (Some []), (service_of (Some engine_empty), []))))
  ∧ Main._fallback_search "2026-01-02"
      (Scanner.example_disk "doc.md" "some text") "  " true = ([], []).
Proof.
  destruct (C10_blank_query (service_of (Some engine_empty)) []
              engine_empty "  " true 50 "2026-01-02"
              (Scanner.example_disk "doc.md" "some text")) as [H1 H2].
  - vm_compute. repeat constructor.
  - split; [|exact H2]. apply H1. reflexivity.
Defined.

(** C10, the claim as it stands, fails: on a service whose client is
    configured and whose index is not yet marked ready, a search for a
    blank query returns the empty list after the existence check of the
    index has been sent to the engine. *)
Lemma C10_counterexample :
  search "   " false 50 (service_of (Some engine_empty), [])
  = (Returned (Some []),
     (set_index_ready true (service_of (Some engine_empty)),
      [indices_exists "thedocs"])).
Proof. reflexivity. Qed.

End BlankQuery.

(** ** The index store *)
Module Store.
Import Py PyFacts IndexStore.

Definition empty_disk : disk :=
  {| markdown_dir := ∅; prompts_dir := ∅; index_csv := None |}.

(** A disk whose [index.csv] holds the given rows. *)
Definition disk_of_file (file : list (list string)) : disk :=
  {| markdown_dir := ∅; prompts_dir := ∅; index_csv := Some file |}.

(** The tokens that [_parse_bool] reads as true. *)
Definition true_tokens : list string := ["1"; "true"; "yes"; "y"].

(** A row with the whitespace at the ends of its text fields removed and
    an empty date replaced by the date of the day. *)
Definition trim_row (today : string) (row : IndexRow) : IndexRow :=
  {| filename := strip (filename row);
     title := strip (title row);
     description := strip (description row);
     is_public := is_public row;
     date_uploaded :=
       strip (if decide (date_uploaded row = "") then today
              else date_uploaded row);
     updated_at := strip (updated_at row) |}.

(** What a written row reads back as: trimmed, and passed over when its
    filename is blank. *)
Definition reread (today : string) (row : IndexRow) : option IndexRow :=
  if decide (strip (filename row) = "") then None
  else Some (trim_row today row).

(** A text without whitespace at its ends. *)
Definition clean (s : string) : Prop := strip s = s.

(** A row that reads back as it was written. *)
Definition well_formed (row : IndexRow) : Prop :=
  filename row ≠ "" ∧ clean (filename row) ∧ clean (title row)
  ∧ clean (description row) ∧ date_uploaded row ≠ ""
  ∧ clean (date_uploaded row) ∧ clean (updated_at row).

Lemma or_empty v : (if decide (v = "") then "" else v) = v.
Proof. by destruct (decide (v = "")). Qed.

Lemma _parse_bool_str b : _parse_bool (Some (_bool_str b)) true = b.
Proof. by destruct b. Qed.

Lemma row_of_written_record today row :
  row_of_record today
    (dict_of_row CSV_COLUMNS (writerow CSV_COLUMNS (record_of_row row)))
  = reread today row.
Proof.
  unfold row_of_record, get_or, reread, trim_row.
  change (dict_of_row CSV_COLUMNS
            (writerow CSV_COLUMNS (record_of_row row)) !! "filename")
    with (Some (filename row)).
  change (dict_of_row CSV_COLUMNS
            (writerow CSV_COLUMNS (record_of_row row)) !! "title")
    with (Some (title row)).
  change (dict_of_row CSV_COLUMNS
            (writerow CSV_COLUMNS (record_of_row row)) !! "description")
    with (Some (description row)).
  change (dict_of_row CSV_COLUMNS
            (writerow CSV_COLUMNS (record_of_row row)) !! "is_public")
    with (Some (_bool_str (is_public row))).
  change (dict_of_row CSV_COLUMNS
            (writerow CSV_COLUMNS (record_of_row row)) !! "date_uploaded")
    with (Some (date_uploaded row)).
  change (dict_of_row CSV_COLUMNS
            (writerow CSV_COLUMNS (record_of_row row)) !! "updated_at")
    with (Some (updated_at row)).
  cbv beta iota zeta. by rewrite !or_empty, _parse_bool_str.
Qed.

Lemma omap_cons {A B} (f : A → option B) x l :
  omap f (x :: l)
  = match f x with Some y => y :: omap f l | None => omap f l end.
Proof. done. Qed.

(** Reading what [_write_rows] has written. *)
Lemma _read_rows_write today rows d :
  _read_rows today (_write_rows rows d) = omap (reread today) rows.
Proof.
  unfold _read_rows, _write_rows, DictReader. cbn [index_csv].
  induction rows as [|row rows IH]; [done|].
  cbn [map]. rewrite filter_cons_True by done. cbn [map].
  by rewrite !omap_cons, row_of_written_record, IH.
Qed.

Lemma reread_well_formed today row :
  well_formed row → reread today row = Some row.
Proof.
  intros (Hne & Hf & Ht & Hd & Hdate & Hdc & Hu). unfold reread, trim_row.
  unfold clean in *.
  rewrite decide_False by (by rewrite Hf).
  rewrite (decide_False (P := date_uploaded row = "")) by done.
  rewrite Hf, Ht, Hd, Hdc, Hu. by destruct row.
Qed.

(** A row whose text fields the reader accepts. *)
Definition row_within_limit (row : IndexRow) : bool :=
  forallb within_field_limit
    [filename row; title row; description row; date_uploaded row;
     updated_at row].

(** The file that [_write_rows] leaves is readable exactly when the text
    fields of all rows are within the bound. *)
Lemma readable_write rows d :
  readable (_write_rows rows d) = forallb row_within_limit rows.
Proof.
  unfold readable, _write_rows. cbn [index_csv forallb].
  change (forallb within_field_limit CSV_COLUMNS) with true. cbn [andb].
  induction rows as [|row rows IH]; [done|].
  cbn [map forallb]. rewrite IH. f_equal.
  change (writerow CSV_COLUMNS (record_of_row row))
    with [filename row; title row; description row;
          _bool_str (is_public row); date_uploaded row; updated_at row].
  unfold row_within_limit. cbn [forallb].
  assert (within_field_limit (_bool_str (is_public row)) = true) as ->
    by (by destruct (is_public row)).
  done.
Qed.

(** C2 (as amended). As long as no text field of a written row exceeds
    the bound of the reader on the size of a field, what is read after
    [_write_rows] is the written rows in their order, each with the
    whitespace at the ends of its text fields removed and an empty
    [date_uploaded] replaced by the current date, without the rows whose
    filename is blank; [is_public] always reads back as written. Hence N
    such rows with a non-empty filename, a non-empty date and no whitespace
    at the ends of their text fields read back as the same N rows, in the
    same order, with identical values in every field. When a text field of
    a written row exceeds the bound, reading raises the error of the
    reader. *)
Theorem C2_write_then_read today rows d :
  (forallb row_within_limit rows = true →
   _read_rows_or_raise today (_write_rows rows d)
   = Returned (omap (reread today) rows)
   ∧ (Forall well_formed rows →
      _read_rows_or_raise today (_write_rows rows d) = Returned rows))
  ∧ (forallb row_within_limit rows = false →
     _read_rows_or_raise today (_write_rows rows d)
     = Raised (CsvError "field larger than field limit (131072)")).
Proof.
  unfold _read_rows_or_raise. rewrite readable_write. split.
  - intros ->. rewrite _read_rows_write. split; [done|]. intros Hwf.
    f_equal. induction Hwf as [|row rows' Hrow _ IH]; [done|].
    by rewrite omap_cons, reread_well_formed, IH.
  - by intros ->.
Qed.

Definition example_row : IndexRow :=
  {| filename := "notes.md"; title := "Notes"; description := "Some notes";
     is_public := false; date_uploaded := "2026-01-01";
     updated_at := "2026-01-01 10:00:00" |}.

(** A text of one character more than the reader accepts in a field. *)
Definition long_text : string :=
  str (repeat "x"%char (N.to_nat 131073)).

Lemma long_text_beyond : within_field_limit long_text = false.
Proof.
  unfold within_field_limit, long_text, len.
  rewrite chars_str, repeat_length, N2Nat.id. reflexivity.
Qed.

Lemma title_beyond_limit row :
  within_field_limit (title row) = false → row_within_limit row = false.
Proof.
  unfold row_within_limit. cbn [forallb]. intros ->.
  by destruct (within_field_limit (filename row)).
Qed.

Lemma C2_write_then_read_witness :
  _read_rows_or_raise "2026-01-02"
    (_write_rows [example_row; example_row] empty_disk)
  = Returned [example_row; example_row]
  ∧ _read_rows_or_raise "2026-01-02"
      (_write_rows [set_title long_text example_row] empty_disk)
    = Raised (CsvError "field larger than field limit (131072)").
Proof.
  split.
  - apply (C2_write_then_read "2026-01-02" [example_row; example_row]
             empty_disk).
    + reflexivity.
    + repeat constructor; vm_compute; congruence.
  - apply (C2_write_then_read "2026-01-02"
             [set_title long_text example_row] empty_disk).
    cbn [forallb]. rewrite title_beyond_limit; [reflexivity|].
    exact long_text_beyond.
Defined.

(** C2, the claim as it stands, fails: a title written with a leading
    space reads back without it, and a row written with a blank filename
    is not read back at all. *)
Lemma C2_counterexample :
  _read_rows_or_raise "2026-01-02"
    (_write_rows [set_title " Notes" example_row] empty_disk)
  = Returned [example_row]
  ∧ set_title " Notes" example_row ≠ example_row
  ∧ _read_rows_or_raise "2026-01-02"
      (_write_rows [ {| filename := " "; title := "Notes";
                        description := ""; is_public := true;
                        date_uploaded := "2026-01-01";
                        updated_at := "2026-01-01 10:00:00" |} ]
         empty_disk)
    = Returned [].
Proof. vm_compute. by repeat split. Qed.

(** Every row read comes from a record of the file. *)
Lemma read_rows_origin today d row :
  row ∈ _read_rows today d →
  ∃ file record,
    index_csv d = Some file ∧ record ∈ DictReader file
    ∧ row_of_record today record = Some row.
Proof.
  unfold _read_rows. destruct (index_csv d) as [file|].
  - intros (record & ? & ?)%list_elem_of_omap. by exists file, record.
  - by intros ?%elem_of_nil.
Qed.

Lemma row_of_record_is_public today record row :
  row_of_record today record = Some row →
  is_public row = _parse_bool (record !! "is_public") true.
Proof.
  unfold row_of_record. destruct (decide _); [done|].
  by intros [= <-].
Qed.

(** C5 (as amended). A row whose [is_public] field is missing or empty
    reads as public. A field that is present and not empty does not fall
    back to the default: it reads true exactly when, trimmed and in lower
    case, it is one of the tokens 1, true, yes, y, so that any other
    token reads false. *)
Theorem C5_is_public_on_read today d row :
  row ∈ _read_rows today d →
  ∃ file record,
    index_csv d = Some file ∧ record ∈ DictReader file
    ∧ row_of_record today record = Some row
    ∧ (record !! "is_public" = None ∨ record !! "is_public" = Some "" →
       is_public row = true)
    ∧ (∀ v, record !! "is_public" = Some v → v ≠ "" →
         is_public row = bool_decide (lower (strip v) ∈ true_tokens)).
Proof.
  intros (file & record & Hfile & Hrec & Hrow)%read_rows_origin.
  exists file, record. repeat (split; [done|]).
  rewrite (row_of_record_is_public _ _ _ Hrow). split.
  - by intros [-> | ->].
  - intros v -> Hv. unfold _parse_bool. by rewrite decide_False.
Qed.

(** A file in which the second row ends before the [is_public] field. *)
Definition short_file : list (list string) :=
  [CSV_COLUMNS;
   ["a.md"; "A"; "about a"; "yes"; "2026-01-01"; "2026-01-01 10:00:00"];
   ["b.md"; "B"; "about b"]].

Lemma C5_is_public_on_read_witness :
  ∃ file record,
    index_csv (disk_of_file short_file) = Some file
    ∧ record ∈ DictReader file
    ∧ row_of_record "2026-01-02" record
      = Some {| filename := "b.md"; title := "B"; description := "about b";
                is_public := true; date_uploaded := "2026-01-02";
                updated_at := "" |}
    ∧ (record !! "is_public" = None ∨ record !! "is_public" = Some "" →
       true = true)
    ∧ (∀ v, record !! "is_public" = Some v → v ≠ "" →
         true = bool_decide (lower (strip v) ∈ true_tokens)).
Proof.
  apply (C5_is_public_on_read "2026-01-02" (disk_of_file short_file)
           {| filename := "b.md"; title := "B"; description := "about b";
              is_public := true; date_uploaded := "2026-01-02";
              updated_at := "" |}).
  vm_compute. repeat constructor.
Defined.

(** C5, the claim as it stands, fails: the token maybe is not a
    recognised boolean, and the row reads as not public. *)
Lemma C5_counterexample :
  _read_rows "2026-01-02"
    (disk_of_file
       [CSV_COLUMNS;
        ["a.md"; "A"; "about a"; "maybe"; "2026-01-01";
         "2026-01-01 10:00:00"]])
  = [ {| filename := "a.md"; title := "A"; description := "about a";
         is_public := false; date_uploaded := "2026-01-01";
         updated_at := "2026-01-01 10:00:00" |} ].
Proof. reflexivity. Qed.

(** C6 (as amended). The stem keeps its letter case: on a directory
    that holds neither name, uploading a file named My Report!.md twice
    stores it as My_Report.md and then, the first file being there, as
    My_Report-1.md. *)
Theorem C6_upload_twice d content1 content2 :
  markdown_dir d !! "My_Report.md" = None →
  markdown_dir d !! "My_Report-1.md" = None →
  save_markdown_file "My Report!.md" content1 d
  = Some (Returned "My_Report.md", write_bytes "My_Report.md" content1 d)
  ∧ save_markdown_file "My Report!.md" content2
      (write_bytes "My_Report.md" content1 d)
    = Some (Returned "My_Report-1.md",
            write_bytes "My_Report-1.md" content2
              (write_bytes "My_Report.md" content1 d)).
Proof.
  intros H0 H1. unfold save_markdown_file.
  change (sanitize_filename "My Report!.md") with (Returned "My_Report.md").
  unfold ensure_unique_filename. split.
  - by rewrite H0.
  - cbn [markdown_dir write_bytes]. rewrite lookup_insert_eq.
    change (splitext "My_Report.md") with ("My_Report", ".md").
    cbn [ensure_unique_loop].
    change ("My_Report" +:+ "-" +:+ str_of_nat 1 +:+ ".md")
      with "My_Report-1.md".
    rewrite lookup_insert_ne by done. by rewrite H1.
Qed.

Lemma C6_upload_twice_witness :
  save_markdown_file "My Report!.md" "first" empty_disk
  = Some (Returned "My_Report.md",
          write_bytes "My_Report.md" "first" empty_disk)
  ∧ save_markdown_file "My Report!.md" "second"
      (write_bytes "My_Report.md" "first" empty_disk)
    = Some (Returned "My_Report-1.md",
            write_bytes "My_Report-1.md" "second"
              (write_bytes "My_Report.md" "first" empty_disk)).
Proof.
  apply (C6_upload_twice empty_disk "first" "second"); reflexivity.
Defined.

(** C6, the claim as it stands, fails: the two uploads are stored under
    names that begin with capital letters, not as my_report.md and
    my_report-1.md. *)
Lemma C6_counterexample :
  fst <$> save_markdown_file "My Report!.md" "first" empty_disk
  = Some (Returned "My_Report.md")
  ∧ fst <$> save_markdown_file "My Report!.md" "second"
              (write_bytes "My_Report.md" "first" empty_disk)
    = Some (Returned "My_Report-1.md")
  ∧ "My_Report.md" ≠ "my_report.md"
  ∧ "My_Report-1.md" ≠ "my_report-1.md".
Proof. vm_compute. by repeat split. Qed.

(** *** Filenames of the rows read *)

(** A filename that reads back as written. *)
Definition clean_name (s : string) : Prop := s ≠ "" ∧ clean s.


Lemma fmap_omap {A B C} (f : B → C) (g : A → option B) (l : list A) :
  f <$> omap g l = omap (λ x, f <$> g x) l.
Proof.
  induction l as [|x l IH]; [done|]. rewrite !omap_cons.
  destruct (g x) as [y|].
  - rewrite fmap_cons, IH. done.
  - by rewrite IH.
Qed.

Lemma omap_ext_all {A B} (f g : A → option B) (l : list A) :
  (∀ x, f x = g x) → omap f l = omap g l.
Proof.
  intros H. induction l as [|x l IH]; [done|].
  by rewrite !omap_cons, H, IH.
Qed.

(** A view of the rows that the date of the day does not enter is the same
    whatever the day of the reading. *)
Lemma read_rows_view {C} (view : IndexRow → C) today today' d :
  (∀ record, view <$> row_of_record today record
             = view <$> row_of_record today' record) →
  view <$> _read_rows today d = view <$> _read_rows today' d.
Proof.
  intros H. unfold _read_rows. destruct (index_csv d); [|done].
  rewrite !fmap_omap. by apply omap_ext_all.
Qed.


Lemma row_of_record_clean today record row :
  row_of_record today record = Some row →
  clean_name (filename row) ∧ clean (title row) ∧ clean (description row).
Proof.
  unfold row_of_record, clean_name, clean.
  destruct (decide _) as [|Hne]; [done|]. intros [= <-]. simpl.
  by rewrite !strip_idemp.
Qed.

Lemma read_rows_clean today d :
  Forall (λ row, clean_name (filename row) ∧ clean (title row)
                 ∧ clean (description row))
    (_read_rows today d).
Proof.
  apply Forall_forall. intros row (? & ? & ? & ? & Hrow)%read_rows_origin.
  by apply row_of_record_clean in Hrow.
Qed.

Lemma reread_clean_name today row :
  clean_name (filename row) → reread today row = Some (trim_row today row).
Proof.
  intros [Hne Hc]. unfold reread, clean in *.
  by rewrite decide_False by (by rewrite Hc).
Qed.

Lemma omap_reread_clean today rows :
  Forall (λ row, clean_name (filename row)) rows →
  omap (reread today) rows = trim_row today <$> rows.
Proof.
  induction 1 as [|row rows Hrow _ IH]; [done|].
  by rewrite omap_cons, reread_clean_name, IH.
Qed.


(** *** [upsert] *)






Lemma upsert_clean row rows :
  clean_name (filename row) →
  Forall (λ row, clean_name (filename row)) rows →
  Forall (λ row, clean_name (filename row)) (upsert row rows).
Proof.
  intros Hrow Hrows. unfold upsert.
  destruct (list_find _ rows) as [[idx existing]|].
  - by apply Forall_insert.
  - apply Forall_app. split; [done|]. by constructor.
Qed.




(** A row for a file of the given name, as an upload builds it. *)
Definition row_named (name : string) : IndexRow :=
  build_row "2026-01-01" "2026-01-01 10:00:00" name "" "" true None.



(** *** [update_missing_metadata] *)

Lemma apply_update_fields now updates row :
  filename (apply_update now updates row) = filename row
  ∧ is_public (apply_update now updates row) = is_public row
  ∧ date_uploaded (apply_update now updates row) = date_uploaded row
  ∧ match updates !! filename row with
    | None => apply_update now updates row = row
    | Some update =>
        title (apply_update now updates row)
          = or_else (update !! "title") (title row)
        ∧ description (apply_update now updates row)
          = or_else (update !! "description") (description row)
        ∧ updated_at (apply_update now updates row) = now
    end.
Proof.
  unfold apply_update, or_else.
  destruct (updates !! filename row) as [update|]; [|done].
  destruct (update !! "title") as [t|];
    destruct (update !! "description") as [t'|];
    repeat (destruct (decide _)); done.
Qed.

(** C8. With an empty mapping [update_missing_metadata] returns at once
    and the table stays as it is. Otherwise it writes a table of the same
    length as the one it read, in which each row keeps its place, its
    filename, its visibility and its upload date: a row whose filename is
    not in the mapping is written unchanged in every field; a row whose
    filename is in the mapping gets the title and the description that the
    mapping provides non-empty, keeps the others, and gets a fresh
    [updated_at]. No row is added for a filename of the mapping that the
    table does not hold, and nothing is raised. *)
Theorem C8_update_missing_metadata_frame today now
    (updates : gmap string (gmap string string)) d :
  (updates = ∅ → update_missing_metadata today now updates d = d)
  ∧ ∃ rows',
      (updates ≠ ∅ →
       update_missing_metadata today now updates d = _write_rows rows' d)
      ∧ length rows' = length (_read_rows today d)
      ∧ ∀ i row,
          _read_rows today d !! i = Some row →
          ∃ row',
            rows' !! i = Some row'
            ∧ filename row' = filename row
            ∧ is_public row' = is_public row
            ∧ date_uploaded row' = date_uploaded row
            ∧ match updates !! filename row with
              | None => row' = row
              | Some update =>
                  title row' = or_else (update !! "title") (title row)
                  ∧ description row'
                    = or_else (update !! "description") (description row)
                  ∧ updated_at row' = now
              end.
Proof.
  split.
  - intros ->. unfold update_missing_metadata. by rewrite decide_True.
  - exists (map (apply_update now updates) (_read_rows today d)).
    split; [|split].
    + intros Hne. unfold update_missing_metadata. by rewrite decide_False.
    + apply length_map.
    + intros i row Hrow. exists (apply_update now updates row).
      split.
      * change (map (apply_update now updates) (_read_rows today d))
          with (apply_update now updates <$> _read_rows today d).
        by rewrite list_lookup_fmap, Hrow.
      * apply apply_update_fields.
Qed.

(** A table of two rows, and a mapping that names the first of them and a
    file that the table does not hold. *)
Definition two_rows : disk :=
  _write_rows [row_named "a.md"; set_title "B" (row_named "b.md")] empty_disk.

Definition example_updates : gmap string (gmap string string) :=
  <["a.md" := <["title" := "A"]> (<["description" := ""]> ∅)]>
    (<["zz.md" := <["title" := "Z"]> ∅]> ∅).

Lemma C8_update_missing_metadata_frame_witness :
  _read_rows "2026-01-03"
    (update_missing_metadata "2026-01-02" "2026-01-02 09:00:00"
       example_updates two_rows)
  = [set_updated_at "2026-01-02 09:00:00" (set_title "A" (row_named "a.md"));
     set_title "B" (row_named "b.md")]
  ∧ ∃ rows',
      (example_updates ≠ ∅ →
       update_missing_metadata "2026-01-02" "2026-01-02 09:00:00"
         example_updates two_rows = _write_rows rows' two_rows)
      ∧ length rows' = length (_read_rows "2026-01-02" two_rows).
Proof.
  split; [by vm_compute|].
  destruct (C8_update_missing_metadata_frame "2026-01-02"
              "2026-01-02 09:00:00" example_updates two_rows)
    as [_ (rows' & Hwrite & Hlen & _)].
  by exists rows'.
Defined.

End Store.

(** ** The enrichment pipeline *)
Module Enrichment.
Import Py PyFacts IndexStore Main Store.

(** The map of current values that the callers of
    [_build_metadata_updates] build from the rows they have read. *)
Definition existing_of (rows : list IndexRow)
  : gmap string (gmap string string) :=
  foldl (λ m row,
           <[filename row :=
               <["title" := title row]>
                 (<["description" := description row]> ∅)]> m)
    ∅ rows.

(** The updates propose no value for [key] under [name]. *)
Definition leaves (key name : string)
  (updates : gmap string (gmap string string)) : Prop :=
  ∀ payload, updates !! name = Some payload → payload !! key = None.

Lemma foldl_invariant {A B} (P : A → Prop) (f : A → B → A) l a :
  P a → (∀ a x, P a → P (f a x)) → P (foldl f a l).
Proof.
  intros Ha Hstep. revert a Ha.
  induction l as [|x l IH]; intros a Ha; [done|]. apply IH, Hstep, Ha.
Qed.

Section Summarizer.
Variable generate_metadata : string → option (gmap string string).

Lemma metadata_step_leaves_title d existing name current v acc name' :
  existing !! name = Some current → current !! "title" = Some v → v ≠ "" →
  leaves "title" name acc.1 →
  leaves "title" name (metadata_step generate_metadata d existing acc name').1.
Proof.
  intros Hex Hcur Hv Hacc. destruct acc as [updates errors].
  unfold metadata_step.
  destruct (markdown_dir d !! name') as [content|]; [|done].
  destruct (generate_metadata (_load_prompt d content)) as [generated|];
    [|done].
  destruct (decide (generated = ∅)); [done|]. cbv zeta.
  destruct (decide (_ = ∅)); [done|]. cbn [fst].
  destruct (decide (name' = name)) as [->|Hne].
  - intros payload. rewrite lookup_insert_eq. intros [= <-].
    assert (falsy (default ∅ (existing !! name) !! "title") = false) as ->.
    { rewrite Hex. simpl. rewrite Hcur. simpl.
      by rewrite bool_decide_eq_false_2. }
    rewrite andb_false_r.
    repeat match goal with
           | |- context [if ?b then _ else _] => destruct b
           end;
      rewrite ?lookup_insert_ne by done; apply lookup_empty.
  - intros payload. rewrite lookup_insert_ne by done. apply Hacc.
Qed.

Lemma metadata_step_leaves_description d existing name current v acc name' :
  existing !! name = Some current → current !! "description" = Some v →
  v ≠ "" →
  leaves "description" name acc.1 →
  leaves "description" name
    (metadata_step generate_metadata d existing acc name').1.
Proof.
  intros Hex Hcur Hv Hacc. destruct acc as [updates errors].
  unfold metadata_step.
  destruct (markdown_dir d !! name') as [content|]; [|done].
  destruct (generate_metadata (_load_prompt d content)) as [generated|];
    [|done].
  destruct (decide (generated = ∅)); [done|]. cbv zeta.
  destruct (decide (_ = ∅)); [done|]. cbn [fst].
  destruct (decide (name' = name)) as [->|Hne].
  - intros payload. rewrite lookup_insert_eq. intros [= <-].
    assert (falsy (default ∅ (existing !! name) !! "description") = false) as ->.
    { rewrite Hex. simpl. rewrite Hcur. simpl.
      by rewrite bool_decide_eq_false_2. }
    rewrite andb_false_r.
    repeat match goal with
           | |- context [if ?b then _ else _] => destruct b
           end;
      rewrite ?lookup_insert_ne by done; apply lookup_empty.
  - intros payload. rewrite lookup_insert_ne by done. apply Hacc.
Qed.

(** A field that is set in the existing map is never proposed. *)
Lemma updates_leave_set_fields d filenames existing name current :
  existing !! name = Some current →
  (∀ v, current !! "title" = Some v → v ≠ "" →
     leaves "title" name
       (_build_metadata_updates generate_metadata d filenames existing).1)
  ∧ (∀ v, current !! "description" = Some v → v ≠ "" →
       leaves "description" name
         (_build_metadata_updates generate_metadata d filenames existing).1).
Proof.
  intros Hex. unfold _build_metadata_updates. split; intros v Hcur Hv.
  - apply (foldl_invariant (λ acc, leaves "title" name acc.1)).
    + by intros payload.
    + intros acc name'. by eapply metadata_step_leaves_title.
  - apply (foldl_invariant (λ acc, leaves "description" name acc.1)).
    + by intros payload.
    + intros acc name'. by eapply metadata_step_leaves_description.
Qed.

End Summarizer.

(** A row keeps the fields that the updates leave alone. *)
Lemma apply_update_leaves now updates row :
  (leaves "title" (filename row) updates →
   title (apply_update now updates row) = title row)
  ∧ (leaves "description" (filename row) updates →
     description (apply_update now updates row) = description row).
Proof.
  pose proof (apply_update_fields now updates row) as (_ & _ & _ & H).
  unfold leaves.
  destruct (updates !! filename row) as [update|]; [|by rewrite H].
  destruct H as (-> & -> & _).
  split; intros Hl; by rewrite (Hl update eq_refl).
Qed.

(** The titles, descriptions and filenames read after
    [update_missing_metadata], whatever the day of the reading. *)
Lemma read_after_update today today' now updates d :
  _read_rows today' (update_missing_metadata today now updates d)
  = (if decide (updates = ∅) then _read_rows today' d
     else trim_row today' <$> (apply_update now updates <$> _read_rows today d)).
Proof.
  unfold update_missing_metadata. destruct (decide (updates = ∅)); [done|].
  rewrite _read_rows_write. apply omap_reread_clean.
  apply Forall_fmap. eapply Forall_impl; [apply read_rows_clean|].
  intros row [Hname _]. simpl.
  by destruct (apply_update_fields now updates row) as (-> & _).
Qed.

(** A row read on one day is read on any other day at the same place,
    with the same filename, title and description. *)
Lemma read_row_stable today today' d (i : nat) row :
  _read_rows today d !! i = Some row →
  ∃ row', _read_rows today' d !! i = Some row'
          ∧ filename row' = filename row ∧ title row' = title row
          ∧ description row' = description row.
Proof.
  intros Hrow.
  pose proof (read_rows_view
                (λ row, (filename row, title row, description row))
                today today' d) as Hview.
  assert (((λ row, (filename row, title row, description row))
             <$> _read_rows today' d) !! i
          = Some (filename row, title row, description row)) as Hi.
  { rewrite <- Hview.
    - by rewrite list_lookup_fmap, Hrow.
    - intros record. unfold row_of_record. by destruct (decide _). }
  apply list_lookup_fmap_Some in Hi as (row' & Heq & Hrow').
  exists row'. split; [done|]. inversion Heq as [[Hf Ht Hd]].
  by rewrite Hf, Ht, Hd.
Qed.

Lemma read_row_clean today d (i : nat) row :
  _read_rows today d !! i = Some row →
  clean_name (filename row) ∧ clean (title row) ∧ clean (description row).
Proof.
  intros Hrow. by apply (proj1 (Forall_lookup _ _) (read_rows_clean today d) i).
Qed.

(** C7. Whatever the summarizer answers, for a record whose title is
    set and whose current values are in the existing map, the updates that
    [_build_metadata_updates] proposes hold no title for its filename, and
    after [update_missing_metadata] has applied them the table still holds,
    at the same place, a record of that filename with that title. The same
    holds for the description. *)
Theorem C7_enrichment_keeps_set_fields
    (generate_metadata : string → option (gmap string string))
    (today today' now : string) (files d : disk) (filenames : list string)
    (existing : gmap string (gmap string string)) (i : nat) (row : IndexRow)
    (current : gmap string string) :
  _read_rows today d !! i = Some row →
  existing !! filename row = Some current →
  let updates :=
    (_build_metadata_updates generate_metadata files filenames existing).1 in
  let after :=
    _read_rows today' (update_missing_metadata today now updates d) in
  (current !! "title" = Some (title row) → title row ≠ "" →
   leaves "title" (filename row) updates
   ∧ ∃ row', after !! i = Some row' ∧ filename row' = filename row
             ∧ title row' = title row)
  ∧ (current !! "description" = Some (description row) →
     description row ≠ "" →
     leaves "description" (filename row) updates
     ∧ ∃ row', after !! i = Some row' ∧ filename row' = filename row
               ∧ description row' = description row).
Proof.
  intros Hrow Hex updates after.
  destruct (updates_leave_set_fields generate_metadata files filenames
              existing (filename row) current Hex) as [Htitle Hdesc].
  fold updates in Htitle, Hdesc.
  destruct (read_row_clean _ _ _ _ Hrow) as ([_ Hcn] & Hct & Hcd).
  assert (∀ view : IndexRow → string,
            (view (apply_update now updates row) = view row) →
            (∀ r, view (trim_row today' r) = strip (view r)) →
            strip (view row) = view row →
            (∀ r r', filename r' = filename r → title r' = title r →
                     description r' = description r → view r' = view r) →
            ∃ row', after !! i = Some row' ∧ filename row' = filename row
                    ∧ view row' = view row) as Hafter.
  { intros view Hkeep Htrim Hclean Hstable. unfold after.
    rewrite read_after_update. destruct (decide (updates = ∅)).
    - destruct (read_row_stable today today' d i row Hrow)
        as (row' & Hrow' & Hf & Ht & Hd).
      exists row'. split; [done|]. split; [done|]. by apply Hstable.
    - exists (trim_row today' (apply_update now updates row)). split.
      + by rewrite !list_lookup_fmap, Hrow.
      + split.
        * cbn [trim_row filename].
          destruct (apply_update_fields now updates row) as (-> & _).
          exact Hcn.
        * by rewrite Htrim, Hkeep. }
  split.
  - intros Hcur Hset. split; [by apply (Htitle (title row))|].
    apply (Hafter title); try done.
    apply apply_update_leaves. by apply (Htitle (title row)).
  - intros Hcur Hset. split; [by apply (Hdesc (description row))|].
    apply (Hafter description); try done.
    apply apply_update_leaves. by apply (Hdesc (description row)).
Qed.

(** A store with one file and its record, whose title is set and whose
    description is empty, and a summarizer that always proposes both. *)
Definition titled_disk : disk :=
  write_bytes "a.md" "Some text"
    (_write_rows [set_title "X" (row_named "a.md")] empty_disk).

Definition eager_summarizer (prompt : string)
  : option (gmap string string) :=
  Some (<["title" := "Y"]> (<["description" := "About Y"]> ∅)).

Lemma C7_enrichment_keeps_set_fields_witness :
  leaves "title" "a.md"
    (_build_metadata_updates eager_summarizer titled_disk ["a.md"]
       (existing_of (_read_rows "2026-01-02" titled_disk))).1
  ∧ ∃ row',
      _read_rows "2026-01-03"
        (update_missing_metadata "2026-01-02" "2026-01-02 09:00:00"
           (_build_metadata_updates eager_summarizer titled_disk ["a.md"]
              (existing_of (_read_rows "2026-01-02" titled_disk))).1
           titled_disk) !! 0 = Some row'
      ∧ filename row' = "a.md" ∧ title row' = "X".
Proof.
  destruct (C7_enrichment_keeps_set_fields eager_summarizer "2026-01-02"
              "2026-01-03" "2026-01-02 09:00:00" titled_disk titled_disk
              ["a.md"] (existing_of (_read_rows "2026-01-02" titled_disk))
              0 (set_title "X" (row_named "a.md"))
              (<["title" := "X"]> (<["description" := ""]> ∅)))
    as [Htitle _].
  - reflexivity.
  - reflexivity.
  - apply Htitle; [reflexivity|discriminate].
Defined.

End Enrichment.

(* ===================================================================== *)
(** * Part III: further properties of the code                            *)
(* ===================================================================== *)

(** ** Deleting, toggling and looking up rows *)
Module StoreOps.
Import Py PyFacts IndexStore Store.

(** Rows whose filenames read back as written are read back trimmed. *)
Lemma read_written_clean today rows d :
  Forall (λ row, clean_name (filename row)) rows →
  _read_rows today (_write_rows rows d) = trim_row today <$> rows.
Proof. intros H. rewrite _read_rows_write. by apply omap_reread_clean. Qed.

Lemma read_rows_clean_names today d :
  Forall (λ row, clean_name (filename row)) (_read_rows today d).
Proof.
  eapply Forall_impl; [apply read_rows_clean|]. by intros ? [? _].
Qed.

Lemma filenames_trim today rows :
  Forall (λ row, clean_name (filename row)) rows →
  filename <$> (trim_row today <$> rows) = filename <$> rows.
Proof.
  intros H. rewrite <- list_fmap_compose. apply Forall_fmap_ext_1.
  eapply Forall_impl; [exact H|]. by intros row [_ Hc].
Qed.

(** Looking a name up among trimmed rows. *)
Lemma find_name_trim today name rows :
  Forall (λ row, clean_name (filename row)) rows →
  snd <$> list_find (λ row, filename row = name) (trim_row today <$> rows)
  = trim_row today
      <$> (snd <$> list_find (λ row, filename row = name) rows).
Proof.
  induction 1 as [|row rows [_ Hc] _ IH]; [done|].
  rewrite fmap_cons. cbn [list_find].
  assert (filename (trim_row today row) = filename row) as -> by exact Hc.
  destruct (decide (filename row = name)); [done|].
  destruct (list_find _ (trim_row today <$> rows)) as [[? ?]|];
    destruct (list_find _ rows) as [[? ?]|]; simpl in *; congruence.
Qed.

Lemma filter_names (name : string) (rows : list IndexRow) :
  filename <$> filter (λ row, filename row ≠ name) rows
  = filter (λ n, n ≠ name) (filename <$> rows).
Proof.
  induction rows as [|row rows IH]; [done|].
  rewrite fmap_cons, !filter_cons.
  destruct (decide (filename row ≠ name)); by rewrite ?fmap_cons, IH.
Qed.

Lemma filter_absent (name : string) (names : list string) :
  name ∉ names → filter (λ n, n ≠ name) names = names.
Proof.
  induction names as [|n names IH]; [done|].
  intros [Hne Hnot]%not_elem_of_cons.
  rewrite filter_cons_True by done. by rewrite IH.
Qed.

Lemma filter_all {A} (P : A → Prop) `{∀ x, Decision (P x)} (l : list A) :
  Forall P l → filter P l = l.
Proof.
  induction 1 as [|x l Hx _ IH]; [done|].
  rewrite filter_cons_True by done. by rewrite IH.
Qed.

(** X1. After [delete_row] no row of the given filename is left, whatever
    the table held: [get_row] finds nothing under that name, and the
    filenames read afterwards are the former ones, in their order, without
    that name. When the table held no row of that name, [delete_row]
    writes the rows back as it has read them, so the file is rewritten
    with the fields as they are read, and the filenames read afterwards
    are the former ones. *)
Theorem X1_delete_row_removes today today' name d :
  get_row today' name (delete_row today name d) = None
  ∧ filename <$> _read_rows today' (delete_row today name d)
    = filter (λ n, n ≠ name) (filename <$> _read_rows today d)
  ∧ (name ∉ filename <$> _read_rows today d →
     delete_row today name d = _write_rows (_read_rows today d) d
     ∧ filename <$> _read_rows today' (delete_row today name d)
       = filename <$> _read_rows today d).
Proof.
  assert (Forall (λ row, clean_name (filename row))
            (filter (λ row, filename row ≠ name) (_read_rows today d)))
    as Hclean.
  { apply Forall_forall. intros row [_ Hrow]%list_elem_of_filter.
    by apply (proj1 (Forall_forall _ _) (read_rows_clean_names today d)). }
  assert (filename <$> _read_rows today' (delete_row today name d)
          = filter (λ n, n ≠ name) (filename <$> _read_rows today d))
    as Hnames.
  { unfold delete_row. rewrite read_written_clean by done.
    by rewrite filenames_trim, filter_names. }
  split; [|split; [done|]].
  - unfold get_row, delete_row. rewrite read_written_clean by done.
    rewrite find_name_trim by done.
    destruct (list_find _ _) as [[i row]|] eqn:Hfind; [|done].
    apply list_find_Some in Hfind as (Hi & Hname & _).
    apply list_elem_of_lookup_2, list_elem_of_filter in Hi as [Hne _].
    by destruct Hne.
  - intros Hnot. split.
    + unfold delete_row. rewrite filter_all; [done|].
      apply Forall_forall. intros row Hrow Hname. apply Hnot.
      rewrite <- Hname. by apply list_elem_of_fmap_2.
    + rewrite Hnames. by apply filter_absent.
Qed.

(** A table of three rows. *)
Definition three_rows : disk :=
  _write_rows [row_named "a.md"; row_named "b.md"; row_named "c.md"]
    empty_disk.

Lemma split_on_absent sep s : sep ∉ s → split_on sep s = [s].
Proof.
  induction s as [|c s IH]; [done|].
  intros [Hc Hs]%not_elem_of_cons. cbn [split_on].
  assert (Ascii.eqb c sep = false) as ->.
  { apply Ascii.eqb_neq. by intros ->. }
  by rewrite IH.
Qed.

(** A plain name leads to the entry of that name in [markdown_files/]. *)
Lemma markdown_path_plain name :
  plain_name name = true → markdown_path name = Some (markdown_file name).
Proof.
  intros Hplain. unfold markdown_path, path_parts.
  assert ("/"%char ∉ chars name) as Hsep.
  { unfold plain_name in Hplain.
    apply andb_true_iff in Hplain as [[_ Hsep]%andb_true_iff _].
    apply negb_true_iff in Hsep. by apply bool_decide_eq_false in Hsep. }
  rewrite split_on_absent by done. cbn [map]. rewrite str_chars.
  by rewrite Hplain.
Qed.

(** X2. [delete_markdown_file] joins the name to the directory as it is
    given. For a plain name (not empty, without a path separator, neither
    of the dot names, of 255 bytes at most) it removes the file of that name and nothing else:
    afterwards the name is free, every other file has the content it had,
    and the prompts and the index are as they were; on a name that is not
    there it leaves the disk as it is, so deleting twice is deleting once.
    A name that climbs out of the directory is followed: with the name of
    the index file relative to the directory, the index is removed. *)
Theorem X2_delete_markdown_file name d :
  (plain_name name = true →
   ∃ d',
     delete_markdown_file name d = Some d'
     ∧ markdown_dir d' !! name = None
     ∧ (∀ other, other ≠ name →
          markdown_dir d' !! other = markdown_dir d !! other)
     ∧ prompts_dir d' = prompts_dir d
     ∧ index_csv d' = index_csv d
     ∧ (markdown_dir d !! name = None → d' = d)
     ∧ delete_markdown_file name d' = Some d')
  ∧ delete_markdown_file "../database/index.csv" d
    = Some {| markdown_dir := markdown_dir d;
              prompts_dir := prompts_dir d;
              index_csv := None |}.
Proof.
  split; [|done]. intros Hplain. unfold delete_markdown_file.
  rewrite markdown_path_plain by done. eexists. split; [done|].
  cbn [markdown_dir prompts_dir index_csv].
  split; [apply lookup_delete_eq|].
  split; [intros other Hne; by apply lookup_delete_ne|].
  split; [done|]. split; [done|]. split.
  - intros Habsent. destruct d as [files prompts index]. simpl in *.
    by rewrite delete_id.
  - do 2 f_equal. apply delete_id, lookup_delete_eq.
Qed.

Lemma X2_delete_markdown_file_witness :
  ∃ d',
    delete_markdown_file "doc.md" (Scanner.example_disk "doc.md" "text")
    = Some d'
    ∧ markdown_dir d' !! "doc.md" = None
    ∧ (∀ other, other ≠ "doc.md" →
         markdown_dir d' !! other
         = markdown_dir (Scanner.example_disk "doc.md" "text") !! other)
    ∧ prompts_dir d' = prompts_dir (Scanner.example_disk "doc.md" "text")
    ∧ index_csv d' = index_csv (Scanner.example_disk "doc.md" "text")
    ∧ (markdown_dir (Scanner.example_disk "doc.md" "text") !! "doc.md"
       = None → d' = Scanner.example_disk "doc.md" "text")
    ∧ delete_markdown_file "doc.md" d' = Some d'.
Proof.
  apply (X2_delete_markdown_file "doc.md"
           (Scanner.example_disk "doc.md" "text")).
  reflexivity.
Defined.

(** The rows read after [toggle_public]. *)
Lemma read_after_toggle today today' now name v d :
  _read_rows today' (toggle_public today now name v d)
  = trim_row today'
      <$> ((λ row, if decide (filename row = name)
                   then set_updated_at now (set_is_public v row)
                   else row)
             <$> _read_rows today d).
Proof.
  unfold toggle_public. apply read_written_clean.
  apply Forall_fmap. eapply Forall_impl; [apply read_rows_clean_names|].
  intros row Hrow. simpl. by destruct (decide (filename row = name)).
Qed.

(** X3. [toggle_public] keeps every row in its place with its filename,
    title and description; the rows of the given filename get the given
    visibility and the others keep theirs. When no row has that filename
    no visibility changes. *)
Theorem X3_toggle_public today today' now name v d (i : nat) row :
  _read_rows today d !! i = Some row →
  ∃ row',
    _read_rows today' (toggle_public today now name v d) !! i = Some row'
    ∧ filename row' = filename row
    ∧ title row' = title row
    ∧ description row' = description row
    ∧ is_public row'
      = (if decide (filename row = name) then v else is_public row).
Proof.
  intros Hrow. rewrite read_after_toggle, !list_lookup_fmap, Hrow.
  eexists. split; [done|].
  pose proof (proj1 (Forall_lookup _ _) (read_rows_clean today d) i row Hrow)
    as ([_ Hn] & Ht & Hd).
  unfold clean in *.
  destruct (decide (filename row = name)); simpl; by rewrite Hn, Ht, Hd.
Qed.

Lemma X3_toggle_public_witness :
  ∃ row',
    _read_rows "2026-01-03"
      (toggle_public "2026-01-02" "2026-01-02 09:00:00" "b.md" false
         three_rows) !! 1 = Some row'
    ∧ filename row' = filename (row_named "b.md")
    ∧ title row' = title (row_named "b.md")
    ∧ description row' = description (row_named "b.md")
    ∧ is_public row'
      = (if decide (filename (row_named "b.md") = "b.md") then false
         else is_public (row_named "b.md")).
Proof.
  apply (X3_toggle_public "2026-01-02" "2026-01-03" "2026-01-02 09:00:00"
           "b.md" false three_rows 1 (row_named "b.md")).
  reflexivity.
Defined.

(** Where [upsert] leaves the row. *)
Lemma find_after_upsert row rows :
  snd <$> list_find (λ existing, filename existing = filename row)
            (upsert row rows)
  = Some row.
Proof.
  unfold upsert.
  destruct (list_find (λ existing, filename existing = filename row) rows)
    as [[idx existing]|] eqn:Hfind.
  - apply list_find_Some in Hfind as (Hidx & Hname & Hfirst).
    assert (list_find (λ existing, filename existing = filename row)
              (<[idx := row]> rows) = Some (idx, row)) as ->; [|done].
    apply list_find_Some. split; [|split; [done|]].
    + apply list_lookup_insert_eq. by eapply lookup_lt_Some.
    + intros j y Hj Hlt. rewrite list_lookup_insert_ne in Hj by lia.
      by apply (Hfirst j).
  - apply list_find_None in Hfind.
    assert (list_find (λ existing, filename existing = filename row)
              (rows ++ [row]) = Some (length rows, row)) as ->; [|done].
    apply list_find_Some. split; [|split; [done|]].
    + by rewrite lookup_app_r, Nat.sub_diag by lia.
    + intros j y Hj Hlt. rewrite lookup_app_l in Hj by done.
      by apply (proj1 (Forall_lookup _ _) Hfind j).
Qed.

(** *** The bound of the reader on the size of a field *)

Lemma forallb_Forall_true {A} (f : A → bool) (l : list A) :
  forallb f l = true ↔ Forall (λ x, f x = true) l.
Proof.
  induction l as [|x l IH]; cbn [forallb].
  - split; [constructor|done].
  - rewrite andb_true_iff, IH, Forall_cons. done.
Qed.

Lemma length_lstrip_l p s : length (lstrip_l p s) ≤ length s.
Proof.
  induction s as [|c s IH]; [done|]. cbn [lstrip_l].
  destruct (p c); cbn [length]; lia.
Qed.

(** Trimming does not lengthen a text. *)
Lemma len_strip s : len (strip s) ≤ len s.
Proof.
  unfold len, strip, strip_l, rstrip_l. rewrite chars_str, length_rev.
  etrans; [apply length_lstrip_l|]. rewrite length_rev.
  apply length_lstrip_l.
Qed.

Lemma within_field_limit_shorter s t :
  len s ≤ len t → within_field_limit t = true → within_field_limit s = true.
Proof. unfold within_field_limit. rewrite !N.leb_le. lia. Qed.

(** A field of a record of the reader is a field of the row it was made
    from. *)
Lemma foldl_delete_lookup (keys : list string) (m : gmap string string)
    key v :
  foldl (λ d k, delete k d) m keys !! key = Some v → m !! key = Some v.
Proof.
  revert m; induction keys as [|k keys IH]; intros m; [done|].
  cbn [foldl]. intros Hv%IH. by apply lookup_delete_Some in Hv as [_ ?].
Qed.

Lemma foldl_insert_lookup (kvs : list (string * string))
    (m : gmap string string) key v :
  foldl (λ d kv, <[kv.1 := kv.2]> d) m kvs !! key = Some v →
  m !! key = Some v ∨ ∃ k, (k, v) ∈ kvs.
Proof.
  revert m; induction kvs as [|[k w] kvs IH]; intros m; [by left|].
  cbn [foldl]. intros [Hv|[k' Hin]]%IH.
  - cbn [fst snd] in Hv. apply lookup_insert_Some in Hv as [[_ <-]|[_ ?]].
    + right. exists k. by left.
    + by left.
  - right. exists k'. by right.
Qed.

Lemma dict_of_row_field fieldnames row key v :
  dict_of_row fieldnames row !! key = Some v → v ∈ row.
Proof.
  unfold dict_of_row.
  intros [Hv|[k Hin]]%foldl_delete_lookup%foldl_insert_lookup.
  - by rewrite lookup_empty in Hv.
  - by apply elem_of_zip_r in Hin.
Qed.

(** The rows read from a readable file have their text fields within the
    bound, the date of the day being within it. *)
Lemma read_rows_within today d :
  readable d = true → within_field_limit today = true →
  Forall (λ row, row_within_limit row = true) (_read_rows today d).
Proof.
  intros Hd Htoday. apply Forall_forall.
  intros row (file & record & Hfile & Hrec & Hrow)%read_rows_origin.
  unfold readable in Hd. rewrite Hfile in Hd.
  assert (∀ key v, record !! key = Some v → within_field_limit v = true)
    as Hfields.
  { unfold DictReader in Hrec.
    destruct file as [|fieldnames rows]; [by apply elem_of_nil in Hrec|].
    apply list_elem_of_In, in_map_iff in Hrec as (r & <- & Hr).
    apply list_elem_of_In, list_elem_of_filter in Hr as [_ Hr].
    cbn [forallb] in Hd. apply andb_true_iff in Hd as [_ Hd].
    rewrite forallb_Forall_true in Hd.
    apply (proj1 (Forall_forall _ _) Hd) in Hr.
    rewrite forallb_Forall_true in Hr.
    intros key v Hv%dict_of_row_field.
    by apply (proj1 (Forall_forall _ _) Hr). }
  assert (∀ key fallback,
            within_field_limit fallback = true →
            within_field_limit (strip (get_or record key fallback)) = true)
    as Hget.
  { intros key fallback Hfb.
    eapply within_field_limit_shorter; [apply len_strip|].
    unfold get_or. destruct (record !! key) as [v|] eqn:Hv; [|done].
    destruct (decide (v = "")); [done|]. by eapply Hfields. }
  unfold row_of_record in Hrow. destruct (decide _); [done|].
  inversion Hrow; subst. unfold row_within_limit.
  cbn [forallb filename title description date_uploaded updated_at].
  by rewrite !Hget.
Qed.

Lemma upsert_Forall (P : IndexRow → Prop) row rows :
  P row → Forall P rows → Forall P (upsert row rows).
Proof.
  intros Hrow Hrows. unfold upsert.
  destruct (list_find _ rows) as [[idx existing]|].
  - by apply Forall_insert.
  - apply Forall_app. split; [done|]. by constructor.
Qed.

Lemma upsert_elem row rows : row ∈ upsert row rows.
Proof.
  pose proof (find_after_upsert row rows) as Hfind.
  destruct (list_find _ (upsert row rows)) as [[i found]|] eqn:E; [|done].
  inversion Hfind; subst.
  apply list_find_Some in E as (Hi & _). by eapply list_elem_of_lookup_2.
Qed.

(** X4. [upsert_row] reads the table first: when the file holds a field
    beyond the bound of the reader it raises and writes nothing, and
    otherwise it returns. After it has returned, a row whose text fields
    are within the bound and whose filename reads back as written is the
    row that [get_row] finds under its filename, read back trimmed, and
    found exactly as it was put when it is well formed (text fields
    without whitespace at their ends, filename and date not empty). A row
    with a text field beyond the bound is written all the same, and the
    [get_row] that follows raises the error of the reader. *)
Theorem X4_get_row_after_upsert today today' row d :
  (readable d = false →
   upsert_row_or_raise today row d
   = (Raised (CsvError "field larger than field limit (131072)"), d))
  ∧ (readable d = true →
     upsert_row_or_raise today row d
     = (Returned tt, upsert_row today row d)
     ∧ (within_field_limit today = true → row_within_limit row = true →
        clean_name (filename row) →
        get_row_or_raise today' (filename row) (upsert_row today row d)
        = Returned (Some (trim_row today' row))
        ∧ (well_formed row →
           get_row_or_raise today' (filename row) (upsert_row today row d)
           = Returned (Some row)))
     ∧ (row_within_limit row = false →
        get_row_or_raise today' (filename row) (upsert_row today row d)
        = Raised (CsvError "field larger than field limit (131072)"))).
Proof.
  unfold upsert_row_or_raise, get_row_or_raise, _read_rows_or_raise.
  split; [by intros ->|]. intros Hd. rewrite Hd. split; [done|].
  assert (readable (upsert_row today row d)
          = forallb row_within_limit (upsert row (_read_rows today d)))
    as -> by apply readable_write.
  split.
  - intros Htoday Hfits Hrow.
    assert (forallb row_within_limit (upsert row (_read_rows today d))
            = true) as ->.
    { apply forallb_Forall_true, upsert_Forall; [done|].
      by apply read_rows_within. }
    assert (get_row today' (filename row) (upsert_row today row d)
            = Some (trim_row today' row)) as Hget.
    { unfold get_row, upsert_row. rewrite read_written_clean.
      - rewrite find_name_trim.
        + by rewrite find_after_upsert.
        + apply upsert_clean; [done|apply read_rows_clean_names].
      - apply upsert_clean; [done|apply read_rows_clean_names]. }
    unfold get_row in Hget. rewrite Hget. split; [done|]. intros Hwf.
    pose proof (reread_well_formed today' row Hwf) as Hre.
    rewrite reread_clean_name in Hre by done. by rewrite Hre.
  - intros Hbeyond.
    destruct (forallb row_within_limit (upsert row (_read_rows today d)))
      eqn:Hall; [|done].
    apply forallb_Forall_true in Hall.
    pose proof (proj1 (Forall_forall _ _) Hall row (upsert_elem row _)).
    congruence.
Qed.

Lemma X4_get_row_after_upsert_witness :
  upsert_row_or_raise "2026-01-02" example_row three_rows
  = (Returned tt, upsert_row "2026-01-02" example_row three_rows)
  ∧ get_row_or_raise "2026-01-03" "notes.md"
      (upsert_row "2026-01-02" example_row three_rows)
    = Returned (Some example_row)
  ∧ get_row_or_raise "2026-01-03" "notes.md"
      (upsert_row "2026-01-02" (set_title long_text example_row) three_rows)
    = Raised (CsvError "field larger than field limit (131072)").
Proof.
  destruct (X4_get_row_after_upsert "2026-01-02" "2026-01-03" example_row
              three_rows) as [_ Hreadable].
  destruct (Hreadable eq_refl) as (Hput & Hget & _).
  split; [exact Hput|]. split.
  - apply Hget; try reflexivity.
    + split; [discriminate|reflexivity].
    + repeat split; try discriminate; reflexivity.
  - destruct (X4_get_row_after_upsert "2026-01-02" "2026-01-03"
                (set_title long_text example_row) three_rows)
      as [_ Hlong].
    destruct (Hlong eq_refl) as (_ & _ & Hraise).
    apply Hraise, title_beyond_limit, long_text_beyond.
Defined.

End StoreOps.

(** ** Storing files under free names *)
Module FileRepo.
Import Py PyFacts IndexStore Store.

(** The name that the loop of [ensure_unique_filename] tries at a given
    counter. *)
Definition candidate (stem ext : string) (counter : nat) : string :=
  stem +:+ "-" +:+ str_of_nat counter +:+ ext.

Lemma str_of_nat_inj n m : str_of_nat n = str_of_nat m → n = m.
Proof.
  unfold str_of_nat. intros H. apply DecimalNat.Unsigned.to_uint_inj.
  assert (Some (Nat.to_uint n) = Some (Nat.to_uint m)) as Hsome.
  { rewrite <- !NilEmpty.usu. by rewrite H. }
  by inversion Hsome.
Qed.

Lemma candidate_inj stem ext n m :
  candidate stem ext n = candidate stem ext m → n = m.
Proof.
  unfold candidate. intros H. apply (f_equal chars) in H.
  rewrite !chars_app in H.
  apply app_inv_head, app_inv_head, app_inv_tail in H.
  by apply str_of_nat_inj, chars_inj.
Qed.

(** The loop returns the first free candidate when one lies within its
    fuel. *)
Lemma ensure_unique_loop_finds (dir : gmap string string) stem ext fuel :
  ∀ counter,
    (∃ k, counter ≤ k ∧ k < counter + fuel
          ∧ dir !! candidate stem ext k = None) →
    ∃ k, ensure_unique_loop fuel dir stem ext counter
         = Some (candidate stem ext k)
         ∧ counter ≤ k
         ∧ dir !! candidate stem ext k = None
         ∧ ∀ j, counter ≤ j → j < k → is_Some (dir !! candidate stem ext j).
Proof.
  induction fuel as [|fuel IH]; intros counter (k & Hk1 & Hk2 & Hfree).
  - lia.
  - cbn [ensure_unique_loop]. fold (candidate stem ext counter).
    destruct (dir !! candidate stem ext counter) as [content|] eqn:Hc.
    + destruct (IH (S counter)) as (k' & Hloop & Hle & Hfree' & Hbusy).
      { exists k. split; [|split; [lia|done]].
        destruct (decide (k = counter)) as [->|]; [congruence|lia]. }
      exists k'. split; [done|]. split; [lia|]. split; [done|].
      intros j Hj1 Hj2. destruct (decide (j = counter)) as [->|].
      * by rewrite Hc.
      * apply Hbusy; lia.
    + exists counter. split; [done|]. split; [lia|]. split; [done|].
      intros; lia.
Qed.

(** Among one more candidates than the directory has files, one is
    free. *)
Lemma free_candidate (dir : gmap string string) stem ext :
  ∃ k, 1 ≤ k ∧ k < 1 + S (size dir) ∧ dir !! candidate stem ext k = None.
Proof.
  destruct (decide (Exists (λ k, dir !! candidate stem ext k = None)
                      (seq 1 (S (size dir))))) as [Hex|Hall].
  - apply Exists_exists in Hex as (k & Hk%elem_of_seq & Hfree).
    exists k. split; [lia|]. split; [lia|done].
  - exfalso. apply not_Exists_Forall in Hall; [|intros k; apply _].
    assert (list_to_set (candidate stem ext <$> seq 1 (S (size dir)))
            ⊆ dom dir) as Hsub.
    { intros name (k & -> & Hk)%elem_of_list_to_set%list_elem_of_fmap.
      apply elem_of_dom.
      apply (proj1 (Forall_forall _ _) Hall) in Hk. simpl in Hk.
      by destruct (dir !! candidate stem ext k). }
    apply subseteq_size in Hsub.
    rewrite size_list_to_set, length_fmap, length_seq, size_dom in Hsub.
    + lia.
    + apply NoDup_fmap_2; [|apply NoDup_seq].
      intros n m. apply candidate_inj.
Qed.

Lemma ensure_unique_filename_fresh d name :
  ∃ unique_name,
    ensure_unique_filename d name = Some unique_name
    ∧ markdown_dir d !! unique_name = None
    ∧ (markdown_dir d !! name = None → unique_name = name)
    ∧ (is_Some (markdown_dir d !! name) →
       ∃ k, 1 ≤ k
            ∧ unique_name
              = candidate (splitext name).1 (splitext name).2 k
            ∧ ∀ j, 1 ≤ j → j < k →
                is_Some (markdown_dir d
                           !! candidate (splitext name).1 (splitext name).2 j)).
Proof.
  unfold ensure_unique_filename.
  destruct (markdown_dir d !! name) as [content|] eqn:Hname.
  - destruct (splitext name) as [stem ext]. cbn [fst snd].
    destruct (ensure_unique_loop_finds (markdown_dir d) stem ext
                (S (size (markdown_dir d))) 1 (free_candidate _ stem ext))
      as (k & Hloop & Hle & Hfree & Hbusy).
    exists (candidate stem ext k). split; [done|]. split; [done|].
    split; [done|]. intros _. by exists k.
  - exists name. split; [done|]. split; [done|]. split; [done|].
    by intros [? ?].
Qed.

(** X5. [ensure_unique_filename] always ends: the fuel of the model is
    never used up. It returns a name that is free in the directory: the
    given name when that is free, and otherwise the given name with the
    lowest counter from 1 on, put before the extension, whose name is
    free. *)
Theorem X5_ensure_unique_filename d name :
  ∃ unique_name,
    ensure_unique_filename d name = Some unique_name
    ∧ markdown_dir d !! unique_name = None
    ∧ (markdown_dir d !! name = None → unique_name = name)
    ∧ (is_Some (markdown_dir d !! name) →
       ∃ k, 1 ≤ k
            ∧ unique_name
              = candidate (splitext name).1 (splitext name).2 k
            ∧ ∀ j, 1 ≤ j → j < k →
                is_Some (markdown_dir d
                           !! candidate (splitext name).1 (splitext name).2 j)).
Proof. apply ensure_unique_filename_fresh. Qed.

(** X6. [save_markdown_file] never overwrites a file. With a name that
    [sanitize_filename] refuses it raises that error and leaves the disk
    as it is. Otherwise it ends and returns a name that was free, stores
    the content under it, and leaves every other file and the index as
    they were. *)
Theorem X6_save_markdown_file name content d :
  (∀ e, sanitize_filename name = Raised e →
     save_markdown_file name content d = Some (Raised e, d))
  ∧ (∀ sanitized, sanitize_filename name = Returned sanitized →
       ∃ stored,
         save_markdown_file name content d
         = Some (Returned stored, write_bytes stored content d)
         ∧ markdown_dir d !! stored = None
         ∧ markdown_dir (write_bytes stored content d) !! stored
           = Some content
         ∧ (∀ other, other ≠ stored →
              markdown_dir (write_bytes stored content d) !! other
              = markdown_dir d !! other)
         ∧ index_csv (write_bytes stored content d) = index_csv d).
Proof.
  unfold save_markdown_file. split.
  - by intros e ->.
  - intros sanitized ->.
    destruct (ensure_unique_filename_fresh d sanitized)
      as (stored & -> & Hfree & _).
    exists stored. split; [done|]. split; [done|].
    cbn [write_bytes markdown_dir index_csv]. split; [|split; [|done]].
    + apply lookup_insert_eq.
    + intros other Hne. by apply lookup_insert_ne.
Qed.

Lemma save_markdown_file_returned name content d stored d' :
  save_markdown_file name content d = Some (Returned stored, d') →
  ∃ sanitized,
    sanitize_filename name = Returned sanitized
    ∧ ensure_unique_filename d sanitized = Some stored
    ∧ d' = write_bytes stored content d.
Proof.
  unfold save_markdown_file.
  destruct (sanitize_filename name) as [sanitized|e]; [|by intros [= ]].
  destruct (ensure_unique_filename d sanitized) as [unique|] eqn:Hu;
    [|done].
  simpl. intros [= <- <-]. by exists sanitized.
Qed.

(** X7. Two uploads under the same name, the second made while the file
    of the first is still there, are stored under two different names, and
    afterwards each name holds the content of its upload: neither upload
    is lost or merged into the other. *)
Theorem X7_two_uploads_two_files name content1 content2 d stored1 d1
    stored2 d2 :
  save_markdown_file name content1 d = Some (Returned stored1, d1) →
  save_markdown_file name content2 d1 = Some (Returned stored2, d2) →
  stored1 ≠ stored2
  ∧ markdown_dir d2 !! stored1 = Some content1
  ∧ markdown_dir d2 !! stored2 = Some content2.
Proof.
  intros (sanitized & Hs & _ & ->)%save_markdown_file_returned.
  intros (sanitized' & Hs' & Hu & ->)%save_markdown_file_returned.
  destruct (ensure_unique_filename_fresh (write_bytes stored1 content1 d)
              sanitized') as (stored & Hu' & Hfree & _).
  rewrite Hu in Hu'. inversion Hu'; subst stored.
  cbn [write_bytes markdown_dir] in *.
  assert (stored1 ≠ stored2) as Hne.
  { intros ->. by rewrite lookup_insert_eq in Hfree. }
  split; [done|]. split.
  - rewrite lookup_insert_ne by done. apply lookup_insert_eq.
  - apply lookup_insert_eq.
Qed.

Lemma X7_two_uploads_two_files_witness :
  "My_Report.md" ≠ "My_Report-1.md"
  ∧ markdown_dir
      (write_bytes "My_Report-1.md" "second"
         (write_bytes "My_Report.md" "first" empty_disk))
      !! "My_Report.md" = Some "first"
  ∧ markdown_dir
      (write_bytes "My_Report-1.md" "second"
         (write_bytes "My_Report.md" "first" empty_disk))
      !! "My_Report-1.md" = Some "second".
Proof.
  apply (X7_two_uploads_two_files "My Report!.md" "first" "second"
           empty_disk "My_Report.md"
           (write_bytes "My_Report.md" "first" empty_disk)
           "My_Report-1.md"
           (write_bytes "My_Report-1.md" "second"
              (write_bytes "My_Report.md" "first" empty_disk)));
    reflexivity.
Defined.

(** *** The shape of a sanitized name *)

Lemma in_name_class_plain c :
  in_name_class c = true →
  isspace c = false ∧ c ≠ "/"%char ∧ c ≠ "."%char.
Proof.
  destruct c as [[] [] [] [] [] [] [] []]; vm_compute; intros H;
    repeat split; congruence.
Qed.

Lemma re_sub_runs_class in_run s :
  Forall (λ c, in_name_class c = true)
    (re_sub_runs (λ c, negb (in_name_class c)) (chars "_") in_run s).
Proof.
  revert in_run; induction s as [|c s IH]; intros in_run; [constructor|].
  cbn [re_sub_runs]. destruct (in_name_class c) eqn:Hc; cbn [negb].
  - by constructor.
  - destruct in_run; [apply IH|]. constructor; [done|apply IH].
Qed.

Lemma re_sub_runs_id in_run s :
  Forall (λ c, in_name_class c = true) s →
  re_sub_runs (λ c, negb (in_name_class c)) (chars "_") in_run s = s.
Proof.
  intros H. revert in_run.
  induction H as [|c s Hc _ IH]; intros in_run; [done|].
  cbn [re_sub_runs]. rewrite Hc. cbn [negb]. by rewrite IH.
Qed.

Lemma lstrip_l_Forall (P : ascii → Prop) p s :
  Forall P s → Forall P (lstrip_l p s).
Proof.
  induction 1 as [|c s Hc Hs IH]; [constructor|]. cbn [lstrip_l].
  destruct (p c); [done|by constructor].
Qed.

Lemma strip_l_Forall (P : ascii → Prop) p s :
  Forall P s → Forall P (strip_l p s).
Proof.
  intros H. unfold strip_l, rstrip_l.
  by apply Forall_rev, lstrip_l_Forall, Forall_rev, lstrip_l_Forall.
Qed.

(** The stems that [sanitize_filename] builds: not empty, made of the
    characters of the class, without underscores at the ends. *)
Definition safe_stem (stem : string) : Prop :=
  stem ≠ ""
  ∧ Forall (λ c, in_name_class c = true) (chars stem)
  ∧ strip_chars "_" stem = stem.

Lemma sanitize_filename_shape name sanitized :
  sanitize_filename name = Returned sanitized →
  ∃ stem ext,
    sanitized = stem +:+ ext ∧ safe_stem stem ∧ ext ∈ ALLOWED_EXTENSIONS.
Proof.
  unfold sanitize_filename.
  destruct (splitext (basename name)) as [raw ext0].
  destruct (bool_decide (lower ext0 ∈ ALLOWED_EXTENSIONS)) eqn:Hext;
    [|done].
  apply bool_decide_eq_true in Hext. intros [= <-].
  eexists _, (lower ext0). split; [done|]. split; [|done].
  destruct (decide (strip_chars "_" _ = "")) as [He|Hne].
  - split; [done|]. split; [|done].
    vm_compute. repeat constructor.
  - split; [done|]. split.
    + unfold strip_chars. rewrite chars_str.
      apply strip_l_Forall. rewrite chars_str. apply re_sub_runs_class.
    + unfold strip_chars. by rewrite chars_str, strip_l_idemp.
Qed.

Lemma safe_name_clean stem ext :
  safe_stem stem → ext ∈ ALLOWED_EXTENSIONS → clean_name (stem +:+ ext).
Proof.
  intros (Hne & Hclass & _) Hext. split.
  - destruct stem; [done|]. done.
  - unfold clean, strip. apply chars_inj. rewrite chars_str, chars_app.
    apply trimmed_strip_l. unfold trimmed.
    destruct (chars stem) as [|c cs] eqn:Hstem.
    { by apply chars_empty in Hstem. }
    apply Forall_cons in Hclass as [Hc _].
    apply in_name_class_plain in Hc as (Hc & _). split.
    + simpl. by rewrite Hc.
    + rewrite rev_app_distr.
      apply list_elem_of_In in Hext. simpl in Hext.
      destruct Hext as [<-|[<-|[]]]; reflexivity.
Qed.

(** X8. A name that [sanitize_filename] returns is a stem followed by
    one of the two allowed extensions in lower case; the stem is not empty,
    is made of letters, digits, underscores and hyphens only, and neither
    begins nor ends with an underscore. So the name holds no path
    separator, and no dot but that of its extension, and it is a filename
    that the index reads back as written. *)
Theorem X8_sanitize_filename_shape name sanitized :
  sanitize_filename name = Returned sanitized →
  ∃ stem ext,
    sanitized = stem +:+ ext
    ∧ ext ∈ ALLOWED_EXTENSIONS
    ∧ stem ≠ ""
    ∧ Forall (λ c, in_name_class c = true ∧ c ≠ "/"%char ∧ c ≠ "."%char)
        (chars stem)
    ∧ strip_chars "_" stem = stem
    ∧ clean_name sanitized.
Proof.
  intros (stem & ext & -> & Hstem & Hext)%sanitize_filename_shape.
  exists stem, ext. split; [done|]. split; [done|].
  pose proof (safe_name_clean stem ext Hstem Hext) as Hclean.
  destruct Hstem as (Hne & Hclass & Htrim).
  split; [done|]. split; [|done].
  eapply Forall_impl; [exact Hclass|]. intros c Hc. split; [done|].
  by apply in_name_class_plain in Hc as (_ & ? & ?).
Qed.

Lemma X8_sanitize_filename_shape_witness :
  ∃ stem ext,
    "My_Report.md" = stem +:+ ext
    ∧ ext ∈ ALLOWED_EXTENSIONS
    ∧ stem ≠ ""
    ∧ Forall (λ c, in_name_class c = true ∧ c ≠ "/"%char ∧ c ≠ "."%char)
        (chars stem)
    ∧ strip_chars "_" stem = stem
    ∧ clean_name "My_Report.md".
Proof.
  apply (X8_sanitize_filename_shape "../uploads/My Report!.MD"
           "My_Report.md").
  reflexivity.
Defined.

(** *** Sanitizing a sanitized name *)

Lemma elem_of_rev {A} (x : A) (l : list A) : x ∈ rev l → x ∈ l.
Proof. rewrite !list_elem_of_In. apply in_rev. Qed.

Lemma rfind_char_absent (s : list ascii) c : c ∉ s → rfind_char s c = None.
Proof.
  intros Hc. unfold rfind_char.
  assert (list_find (λ x, x = c) (rev s) = None) as ->; [|done].
  apply list_find_None, Forall_forall. intros x Hx%elem_of_rev ->. done.
Qed.

Lemma rfind_char_last (l1 l2 : list ascii) c :
  c ∉ l2 → rfind_char (l1 ++ c :: l2) c = Some (length l1).
Proof.
  intros Hc. unfold rfind_char.
  assert (list_find (λ x, x = c) (rev (l1 ++ c :: l2))
          = Some (length l2, c)) as ->.
  { rewrite rev_app_distr. cbn [rev]. rewrite <- app_assoc.
    apply list_find_Some. split; [|split; [done|]].
    - rewrite lookup_app_r by (rewrite length_rev; lia).
      by rewrite length_rev, Nat.sub_diag.
    - intros j y Hj Hlt. rewrite lookup_app_l in Hj
        by (by rewrite length_rev).
      apply list_elem_of_lookup_2, elem_of_rev in Hj. by intros ->. }
  simpl. f_equal. rewrite length_app. simpl. lia.
Qed.

Lemma allowed_extension_dot ext :
  ext ∈ ALLOWED_EXTENSIONS →
  ∃ rest, chars ext = "."%char :: rest ∧ ("."%char ∉ rest)
          ∧ ("/"%char ∉ chars ext) ∧ lower ext = ext.
Proof.
  intros Hext. apply list_elem_of_In in Hext. simpl in Hext.
  destruct Hext as [<-|[<-|[]]]; eexists; (split; [reflexivity|]);
    repeat split; try reflexivity;
    intros H; repeat (apply elem_of_cons in H as [H|H]; [done|]);
    by apply elem_of_nil in H.
Qed.

Lemma splitext_safe stem ext :
  safe_stem stem → ext ∈ ALLOWED_EXTENSIONS →
  basename (stem +:+ ext) = stem +:+ ext
  ∧ splitext (stem +:+ ext) = (stem, ext).
Proof.
  intros (Hne & Hclass & _) Hext.
  destruct (allowed_extension_dot ext Hext) as (rest & Hchars & Hdot & Hsl & _).
  assert ("/"%char ∉ chars (stem +:+ ext)) as Hnoslash.
  { rewrite chars_app. intros [H|H]%elem_of_app; [|done].
    apply (proj1 (Forall_forall _ _) Hclass) in H.
    by apply in_name_class_plain in H as (_ & ? & _). }
  split.
  - unfold basename. by rewrite rfind_char_absent.
  - unfold splitext. cbv zeta.
    rewrite (rfind_char_absent _ "/"%char) by done.
    rewrite chars_app, Hchars, rfind_char_last by done.
    change (0 <=? length (chars stem)) with true. cbn [andb].
    rewrite Nat.sub_0_r, drop_0, take_app_length.
    assert (existsb (λ c, negb (Ascii.eqb c ".")) (chars stem) = true) as ->.
    { destruct (chars stem) as [|c cs] eqn:Hstem.
      { by apply chars_empty in Hstem. }
      apply Forall_cons in Hclass as [Hc _].
      apply in_name_class_plain in Hc as (_ & _ & Hc).
      simpl. apply orb_true_iff. left. apply negb_true_iff.
      by apply Ascii.eqb_neq. }
    rewrite drop_app_length, str_chars, <- Hchars, str_chars. done.
Qed.

(** X9. [sanitize_filename] is idempotent: a name that it returns is
    accepted by it and returned unchanged, so that sanitizing a stored
    name again cannot rename the file. *)
Theorem X9_sanitize_filename_idempotent name sanitized :
  sanitize_filename name = Returned sanitized →
  sanitize_filename sanitized = Returned sanitized.
Proof.
  intros (stem & ext & -> & Hstem & Hext)%sanitize_filename_shape.
  destruct (splitext_safe stem ext Hstem Hext) as [Hbase Hsplit].
  destruct (allowed_extension_dot ext Hext) as (_ & _ & _ & _ & Hlower).
  destruct Hstem as (Hne & Hclass & Htrim).
  unfold sanitize_filename. rewrite Hbase, Hsplit, Hlower.
  rewrite bool_decide_eq_true_2 by done.
  rewrite re_sub_runs_id, str_chars, Htrim by done.
  by rewrite decide_False.
Qed.

Lemma X9_sanitize_filename_idempotent_witness :
  sanitize_filename "My_Report.md" = Returned "My_Report.md".
Proof.
  apply (X9_sanitize_filename_idempotent "../uploads/My Report!.MD").
  reflexivity.
Defined.

End FileRepo.

(** ** Searching: the scanner's bounds and the choice of the path *)
Module SearchPaths.
Import Py PyFacts IndexStore Main Scanner.

(** The rows that the scanner goes through. *)
Definition scanned_rows (today : string) (d : disk) (public_only : bool)
  : list IndexRow :=
  if public_only
  then filter (λ row, is_public row = true) (list_rows today d)
  else list_rows today d.

Lemma hit_row today d query public_only hit :
  hit ∈ (_fallback_search today d query public_only).1 →
  ∃ row, row ∈ scanned_rows today d public_only
         ∧ is_Some (markdown_dir d !! filename row)
         ∧ SearchService.filename hit = filename row.
Proof.
  destruct (decide (strip query = "")) as [Hq|Hq].
  { unfold _fallback_search. rewrite decide_True by done. simpl.
    by intros ?%elem_of_nil. }
  rewrite _fallback_search_results by done.
  fold (scanned_rows today d public_only).
  intros (k & Hhit%list_elem_of_lookup_2 & _)%elem_of_take.
  apply list_elem_of_In, in_flat_map in Hhit.
  destruct Hhit as (row & Hrow%list_elem_of_In & Hhit).
  exists row. split; [done|]. unfold hits_of_row in Hhit.
  destruct (markdown_dir d !! filename row) as [content|]; [|done].
  split; [done|].
  by apply in_map_iff in Hhit as (start & <- & _).
Qed.

(** X10. The fallback scanner returns at most 100 hits. Every hit
    names a row of the index whose file exists, and with [public_only] set
    that row is public: a search restricted to public documents never
    shows a hit from a private one. *)
Theorem X10_fallback_search_bounds today d query public_only :
  length (_fallback_search today d query public_only).1 ≤ 100
  ∧ ∀ hit,
      hit ∈ (_fallback_search today d query public_only).1 →
      ∃ row,
        row ∈ list_rows today d
        ∧ is_Some (markdown_dir d !! filename row)
        ∧ SearchService.filename hit = filename row
        ∧ (public_only = true → is_public row = true).
Proof.
  split.
  - unfold _fallback_search. destruct (decide (strip query = ""));
      [simpl; lia|].
    destruct (foldl _ _ _) as [results trace]. simpl.
    rewrite length_take. lia.
  - intros hit (row & Hrow & Hfile & Hname)%hit_row.
    exists row. unfold scanned_rows in Hrow.
    destruct public_only.
    + apply list_elem_of_filter in Hrow as [Hpub Hrow]. by repeat split.
    + by repeat split.
Qed.


End SearchPaths.

(** ** Keeping the engine's index up to date *)
Module Indexing.
Import Py PyFacts IndexStore SearchService Engine.

(** The request that a mutator sends after [ensure_index]. *)
Lemma mutator_enabled (self : service) sent req
    (answer : list request → outcome unit) :
  bind ensure_index
    (λ _, try_except (call req answer) (λ exc, ret tt)) (self, sent)
  = (Returned tt,
     ((ensure_index (self, sent)).2.1,
      (ensure_index (self, sent)).2.2 ++ [req])).
Proof.
  unfold bind at 1.
  destruct (ensure_index_returns (self, sent)) as [[self' sent'] ->].
  unfold try_except, call, ret. simpl. by destruct (answer sent') as [[]|].
Qed.

Lemma mutators_enabled (self : service) (sent : list request)
    (es : Elasticsearch) (name content : string) (is_public : bool) :
  client self = Some es →
  index_document name content is_public (self, sent)
  = (Returned tt,
     ((ensure_index (self, sent)).2.1,
      (ensure_index (self, sent)).2.2
      ++ [index_req (index_name self) name name content is_public]))
  ∧ delete_document name (self, sent)
    = (Returned tt,
       ((ensure_index (self, sent)).2.1,
        (ensure_index (self, sent)).2.2
        ++ [delete_req (index_name self) name]))
  ∧ update_visibility name is_public (self, sent)
    = (Returned tt,
       ((ensure_index (self, sent)).2.1,
        (ensure_index (self, sent)).2.2
        ++ [update_req (index_name self) name is_public])).
Proof.
  intros Hc.
  unfold index_document, delete_document, update_visibility.
  unfold bind at 1 3 5, get_self. cbn [fst]. rewrite Hc.
  split; [|split]; apply mutator_enabled.
Qed.

(** X12. With a client configured, [index_document], [delete_document]
    and [update_visibility] never raise, whatever the engine answers: each
    runs [ensure_index] and then sends exactly one request of its own,
    keyed by the filename, and returns. The request of [update_visibility]
    carries the visibility flag only, never the content. *)
Theorem X12_mutators_send_one_request (self : service)
    (sent : list request) (es : Elasticsearch) (name content : string)
    (is_public : bool) :
  client self = Some es →
  index_document name content is_public (self, sent)
  = (Returned tt,
     ((ensure_index (self, sent)).2.1,
      (ensure_index (self, sent)).2.2
      ++ [index_req (index_name self) name name content is_public]))
  ∧ delete_document name (self, sent)
    = (Returned tt,
       ((ensure_index (self, sent)).2.1,
        (ensure_index (self, sent)).2.2
        ++ [delete_req (index_name self) name]))
  ∧ update_visibility name is_public (self, sent)
    = (Returned tt,
       ((ensure_index (self, sent)).2.1,
        (ensure_index (self, sent)).2.2
        ++ [update_req (index_name self) name is_public])).
Proof. apply mutators_enabled. Qed.

Lemma X12_mutators_send_one_request_witness :
  index_document "a.md" "text" true (service_of (Some engine_down), [])
  = (Returned tt,
     (service_of (Some engine_down),
      [indices_exists "thedocs";
       index_req "thedocs" "a.md" "a.md" "text" true])).
Proof.
  apply (X12_mutators_send_one_request (service_of (Some engine_down)) []
           engine_down "a.md" "text" true).
  reflexivity.
Defined.








End Indexing.

(** ** What the enrichment pipeline proposes and counts *)
Module Proposals.
Import Py PyFacts IndexStore Main Store.

Section Summarizer.
Variable generate_metadata : string → option (gmap string string).

(** The file of the name cannot be read, or the summarizer has no result
    for it: the cases that [_build_metadata_updates] counts as errors. *)
Definition no_result (d : disk) (name : string) : bool :=
  match markdown_dir d !! name with
  | None => true
  | Some content =>
      match generate_metadata (_load_prompt d content) with
      | None => true
      | Some generated => bool_decide (generated = ∅)
      end
  end.

(** A payload as the pipeline builds it: not empty, with the keys title
    and description only, each value not empty and without whitespace at
    its ends. *)
Definition proposal (payload : gmap string string) : Prop :=
  payload ≠ ∅
  ∧ ∀ key v, payload !! key = Some v →
      (key = "title" ∨ key = "description") ∧ v ≠ "" ∧ strip v = v.

Lemma metadata_step_spec d existing updates errors name :
  metadata_step generate_metadata d existing (updates, errors) name
  = (updates, S errors) ∧ no_result d name = true
  ∨ no_result d name = false
    ∧ (metadata_step generate_metadata d existing (updates, errors) name
       = (updates, errors)
       ∨ ∃ payload,
           metadata_step generate_metadata d existing (updates, errors) name
           = (<[name := payload]> updates, errors)
           ∧ proposal payload).
Proof.
  unfold metadata_step, no_result.
  destruct (markdown_dir d !! name) as [content|]; [|by left].
  destruct (generate_metadata (_load_prompt d content)) as [generated|];
    [|by left].
  destruct (decide (generated = ∅)) as [He|Hne].
  { left. by rewrite bool_decide_eq_true_2. }
  right. rewrite bool_decide_eq_false_2 by done. split; [done|]. cbv zeta.
  destruct (decide (_ = ∅)) as [|Hpayload]; [by left|].
  right. eexists. split; [done|]. split; [done|].
  intros key v.
  set (t := strip (default "" (generated !! "title"))).
  set (ds := strip (default "" (generated !! "description"))).
  destruct (negb (bool_decide (t = "")) && _) eqn:Ht;
    destruct (negb (bool_decide (ds = "")) && _) eqn:Hd;
    rewrite ?lookup_insert, ?lookup_empty;
    repeat case_decide; subst; intros [= <-] || intros [=];
    try (apply andb_prop in Ht as [Ht _]; apply negb_true_iff,
           bool_decide_eq_false in Ht);
    try (apply andb_prop in Hd as [Hd _]; apply negb_true_iff,
           bool_decide_eq_false in Hd);
    (split; [by (left + right)|]); (split; [done|]);
    apply strip_idemp.
Qed.

Lemma build_updates_spec d existing filenames :
  ∀ updates errors,
    ∃ updates',
      foldl (metadata_step generate_metadata d existing) (updates, errors)
        filenames
      = (updates', errors + length (filter (λ name, no_result d name = true)
                                      filenames))
      ∧ ∀ name payload,
          updates' !! name = Some payload →
          updates !! name = Some payload
          ∨ (name ∈ filenames ∧ no_result d name = false
             ∧ proposal payload).
Proof.
  induction filenames as [|name filenames IH]; intros updates errors.
  - exists updates. cbn [foldl filter]. simpl. rewrite Nat.add_0_r.
    split; [done|]. by left.
  - cbn [foldl].
    destruct (metadata_step_spec d existing updates errors name)
      as [[-> Hno]|[Hno [->|(payload & -> & Hp)]]].
    + destruct (IH updates (S errors)) as (updates' & -> & Hin).
      exists updates'. rewrite filter_cons_True by done. split.
      * f_equal. simpl. lia.
      * intros n p [?|(? & ? & ?)]%Hin; [by left|right].
        split; [by right|done].
    + destruct (IH updates errors) as (updates' & -> & Hin).
      exists updates'. rewrite filter_cons_False by (by rewrite Hno).
      split; [done|].
      intros n p [?|(? & ? & ?)]%Hin; [by left|right].
      split; [by right|done].
    + destruct (IH (<[name := payload]> updates) errors)
        as (updates' & -> & Hin).
      exists updates'. rewrite filter_cons_False by (by rewrite Hno).
      split; [done|].
      intros n p [Hl|(? & ? & ?)]%Hin.
      * destruct (decide (name = n)) as [->|Hne].
        { rewrite lookup_insert_eq in Hl. inversion Hl; subst.
          right. split; [by left|done]. }
        left. by rewrite lookup_insert_ne in Hl.
      * right. split; [by right|done].
Qed.

(** X14. [_build_metadata_updates] counts as errors exactly the listed
    filenames whose file cannot be read or for which the summarizer has no
    result, so never more than it was given names. It proposes updates
    only for listed filenames that had a result, and every proposal is a
    non-empty payload whose keys are title and description only, with
    values that are not empty and carry no whitespace at their ends. *)
Theorem X14_build_metadata_updates d filenames existing :
  (_build_metadata_updates generate_metadata d filenames existing).2
  = length (filter (λ name, no_result d name = true) filenames)
  ∧ (_build_metadata_updates generate_metadata d filenames existing).2
    ≤ length filenames
  ∧ ∀ name payload,
      (_build_metadata_updates generate_metadata d filenames existing).1
        !! name = Some payload →
      name ∈ filenames ∧ no_result d name = false ∧ proposal payload.
Proof.
  unfold _build_metadata_updates.
  destruct (build_updates_spec d existing filenames ∅ 0)
    as (updates' & -> & Hin).
  cbn [fst snd]. split; [done|]. split.
  - simpl. apply length_filter.
  - intros name payload [Hl|?]%Hin; [|done]. by rewrite lookup_empty in Hl.
Qed.

End Summarizer.

End Proposals.

(** ** Synchronising the index with the markdown directory *)
Module Sync.
Import Py PyFacts IndexStore Store StoreOps.

(** [Path(name).suffix]: the name from its last dot on, when that dot is
    neither the first nor the last character; empty otherwise. *)
Definition suffix (name : string) : string :=
  match rfind_char (chars name) "."%char with
  | Some i =>
      if (0 <? i) && (i <? len name - 1) then str (drop i (chars name))
      else ""
  | None => ""
  end.

(** [list_markdown_files]: the names of the directory with an allowed
    suffix, sorted. The directory is listed in no particular order; the
    names are distinct, so their sorted list does not depend on it. *)
Definition list_markdown_files (d : disk) : list string :=
  merge_sort String.le
    (filter (λ name, lower (suffix name) ∈ ALLOWED_EXTENSIONS)
       (map_to_list (markdown_dir d)).*1).

(** [sync_new_files]: the new filenames, and the disk afterwards. *)
Definition sync_new_files (today now : string) (default_public : bool)
  (d : disk) : list string * disk :=
  let files := list_markdown_files d in
  let rows := _read_rows today d in
  let new_files :=
    filter (λ name, name ∉ filename <$> rows) files in
  (new_files,
   _write_rows
     (rows ++ map (λ name, build_row today now name "" "" default_public
                             (Some today))
                new_files)
     d).

Lemma elem_of_list_markdown_files d name :
  name ∈ list_markdown_files d
  ↔ is_Some (markdown_dir d !! name)
    ∧ lower (suffix name) ∈ ALLOWED_EXTENSIONS.
Proof.
  unfold list_markdown_files. rewrite merge_sort_Permutation.
  rewrite list_elem_of_filter, list_elem_of_fmap. split.
  - intros [Hext ([n c] & -> & Hin%elem_of_map_to_list)]. by split.
  - intros [[c Hc] Hext]. split; [done|]. exists (name, c). split; [done|].
    by apply elem_of_map_to_list.
Qed.

Lemma NoDup_list_markdown_files d : NoDup (list_markdown_files d).
Proof.
  unfold list_markdown_files. rewrite merge_sort_Permutation.
  apply NoDup_filter, NoDup_fst_map_to_list.
Qed.

Lemma StronglySorted_filter {A} (R : relation A) (P : A → Prop)
    `{∀ x, Decision (P x)} l :
  StronglySorted R l → StronglySorted R (filter P l).
Proof.
  induction 1 as [|x l Hl IH Hx]; [constructor|].
  rewrite filter_cons. destruct (decide (P x)); [|done].
  constructor; [done|]. apply Forall_forall.
  intros y [_ Hy]%list_elem_of_filter.
  by apply (proj1 (Forall_forall _ _) Hx).
Qed.

(** X15. [sync_new_files] returns, sorted and without repetition,
    exactly the files of the markdown directory with an allowed suffix
    that have no row in the index. It writes the rows it read, unchanged
    and in their order, followed by one row for each returned name, in
    that order, with empty title and description, the given visibility
    and the date of the day; the files themselves are not touched. *)
Theorem X15_sync_new_files today now default_public d :
  (∀ name,
     name ∈ (sync_new_files today now default_public d).1
     ↔ is_Some (markdown_dir d !! name)
       ∧ lower (suffix name) ∈ ALLOWED_EXTENSIONS
       ∧ name ∉ filename <$> _read_rows today d)
  ∧ NoDup (sync_new_files today now default_public d).1
  ∧ StronglySorted String.le (sync_new_files today now default_public d).1
  ∧ (sync_new_files today now default_public d).2
    = _write_rows
        (_read_rows today d
         ++ map (λ name,
                   {| filename := name; title := ""; description := "";
                      is_public := default_public;
                      date_uploaded := or_else (Some today) today;
                      updated_at := now |})
              (sync_new_files today now default_public d).1)
        d
  ∧ markdown_dir (sync_new_files today now default_public d).2
    = markdown_dir d.
Proof.
  unfold sync_new_files. cbn [fst snd]. split; [|split; [|split]].
  - intros name. rewrite list_elem_of_filter, elem_of_list_markdown_files.
    tauto.
  - apply NoDup_filter, NoDup_list_markdown_files.
  - apply StronglySorted_filter. unfold list_markdown_files.
    apply StronglySorted_merge_sort; apply _.
  - by split.
Qed.

(** The filenames read after a sync when the new names read back as
    written. *)
Lemma filenames_after_sync today today' now default_public d :
  (∀ name, name ∈ list_markdown_files d → clean_name name) →
  filename <$> _read_rows today' (sync_new_files today now default_public d).2
  = (filename <$> _read_rows today d)
    ++ (sync_new_files today now default_public d).1.
Proof.
  intros Hclean. unfold sync_new_files. cbn [fst snd].
  rewrite read_written_clean.
  - rewrite filenames_trim.
    + rewrite fmap_app. f_equal.
      change (map ?f ?l) with (f <$> l). rewrite <- list_fmap_compose.
      rewrite <- (list_fmap_id (filter _ _)) at 2.
      by apply Forall_fmap_ext_1, Forall_true.
    + apply Forall_app. split; [apply read_rows_clean_names|].
      apply Forall_forall. intros row
        (name & -> & [_ Hname]%list_elem_of_filter)%list_elem_of_fmap.
      simpl. by apply Hclean.
  - apply Forall_app. split; [apply read_rows_clean_names|].
    apply Forall_forall. intros row
      (name & -> & [_ Hname]%list_elem_of_filter)%list_elem_of_fmap.
    simpl. by apply Hclean.
Qed.

(** X16. When the names of the markdown files have no whitespace at
    their ends, after [sync_new_files] every markdown file with an allowed
    suffix has a row in the index, the rows that were there come first
    with their filenames in their order, and a second [sync_new_files]
    finds nothing new. *)
Theorem X16_sync_covers_and_settles today today' now now' default_public
    default_public' d :
  (∀ name, name ∈ list_markdown_files d → clean_name name) →
  (∀ name,
     name ∈ list_markdown_files d →
     name ∈ filename
              <$> _read_rows today'
                    (sync_new_files today now default_public d).2)
  ∧ filename <$> _read_rows today'
                   (sync_new_files today now default_public d).2
    = (filename <$> _read_rows today d)
      ++ (sync_new_files today now default_public d).1
  ∧ (sync_new_files today' now' default_public'
       (sync_new_files today now default_public d).2).1 = [].
Proof.
  intros Hclean.
  pose proof (filenames_after_sync today today' now default_public d Hclean)
    as Hnames.
  assert (∀ name,
            name ∈ list_markdown_files d →
            name ∈ filename
                     <$> _read_rows today'
                           (sync_new_files today now default_public d).2)
    as Hcover.
  { intros name Hname. rewrite Hnames. apply elem_of_app.
    destruct (decide (name ∈ filename <$> _read_rows today d));
      [by left|right].
    unfold sync_new_files. cbn [fst]. by apply list_elem_of_filter. }
  split; [done|]. split; [done|].
  unfold sync_new_files at 1. cbn [fst].
  assert (list_markdown_files (sync_new_files today now default_public d).2
          = list_markdown_files d) as -> by done.
  match goal with
  | |- ?l = [] => destruct l as [|x rest] eqn:Hf
  end; [done|].
  assert (x ∈ x :: rest) as Hx by left. rewrite <- Hf in Hx.
  apply list_elem_of_filter in Hx as [Hnot Hin]. destruct Hnot.
  by apply Hcover.
Qed.

(** A directory with two markdown files and a text file, and an index
    that knows the first markdown file only. *)
Definition unsynced_disk : disk :=
  write_bytes "notes.txt" "plain"
    (write_bytes "b.md" "text of b"
       (write_bytes "a.md" "text of a"
          (_write_rows [row_named "a.md"] empty_disk))).

Lemma X16_sync_covers_and_settles_witness :
  (sync_new_files "2026-01-02" "2026-01-02 09:00:00" false unsynced_disk).1
  = ["b.md"]
  ∧ (sync_new_files "2026-01-03" "2026-01-03 09:00:00" true
       (sync_new_files "2026-01-02" "2026-01-02 09:00:00" false
          unsynced_disk).2).1 = [].
Proof.
  split; [by vm_compute|].
  apply (X16_sync_covers_and_settles "2026-01-02" "2026-01-03"
           "2026-01-02 09:00:00" "2026-01-03 09:00:00" false true
           unsynced_disk).
  intros name Hname.
  assert (name ∈ ["a.md"; "b.md"]) as Hin by exact Hname.
  repeat (apply elem_of_cons in Hin as [->|Hin]);
    [by split..|by apply elem_of_nil in Hin].
Defined.

End Sync.

(** ** Rows as read, phrases, and the hits of the engine *)
Module Reading.
Import Py PyFacts IndexStore Store.

(** X17. Every row that [_read_rows] returns has a filename that is not
    empty, and its filename, title, description, upload date and
    [updated_at] carry no whitespace at their ends, whatever the file
    holds: blank rows are passed over and the fields are trimmed. *)
Theorem X17_rows_read_are_trimmed today d row :
  row ∈ _read_rows today d →
  filename row ≠ ""
  ∧ strip (filename row) = filename row
  ∧ strip (title row) = title row
  ∧ strip (description row) = description row
  ∧ strip (date_uploaded row) = date_uploaded row
  ∧ strip (updated_at row) = updated_at row.
Proof.
  intros (file & record & _ & _ & Hrow)%read_rows_origin.
  unfold row_of_record in Hrow.
  destruct (decide _) as [|Hne]; [done|]. inversion Hrow; subst. simpl.
  by rewrite !strip_idemp.
Qed.

Lemma X17_rows_read_are_trimmed_witness :
  filename example_row ≠ ""
  ∧ strip (filename example_row) = filename example_row
  ∧ strip (title example_row) = title example_row
  ∧ strip (description example_row) = description example_row
  ∧ strip (date_uploaded example_row) = date_uploaded example_row
  ∧ strip (updated_at example_row) = updated_at example_row.
Proof.
  apply (X17_rows_read_are_trimmed "2026-01-02"
           (disk_of_file
              [CSV_COLUMNS;
               ["  notes.md "; " Notes"; "Some notes  "; "no"; "2026-01-01 ";
                " 2026-01-01 10:00:00"]])).
  vm_compute. constructor.
Defined.

End Reading.

Module Phrases.
Import Py PyFacts Main.

Lemma take_while_split p s :
  s = take_while p s ++ drop (length (take_while p s)) s.
Proof.
  induction s as [|c s IH]; [done|]. cbn [take_while].
  destruct (p c); [|done]. cbn [length drop app]. by rewrite <- IH.
Qed.

Lemma take_while_Forall p s : Forall (λ c, p c = true) (take_while p s).
Proof.
  induction s as [|c s IH]; [constructor|]. cbn [take_while].
  destruct (p c) eqn:Hc; by constructor.
Qed.

Lemma take_while_stops p s x rest :
  drop (length (take_while p s)) s = x :: rest → p x = false.
Proof.
  induction s as [|c s IH]; [done|]. cbn [take_while].
  destruct (p c) eqn:Hc.
  - cbn [length drop]. apply IH.
  - cbn [length drop]. by intros [= <- _].
Qed.

(** What [first_quoted] finds stands between two double quotes. *)
Lemma first_quoted_Some s body :
  first_quoted s = Some body →
  ∃ pre post,
    s = pre ++ dquote :: body ++ dquote :: post
    ∧ body ≠ [] ∧ dquote ∉ body.
Proof.
  induction s as [|c s IH]; [done|]. cbn [first_quoted].
  assert (first_quoted s = Some body →
          ∃ pre post, c :: s = pre ++ dquote :: body ++ dquote :: post
                      ∧ body ≠ [] ∧ dquote ∉ body) as Hrec.
  { intros (pre & post & -> & ? & ?)%IH. by exists (c :: pre), post. }
  destruct (Ascii.eqb c dquote) eqn:Hc; [|done].
  apply Ascii.eqb_eq in Hc as ->.
  pose proof (take_while_split (λ x, negb (Ascii.eqb x dquote)) s) as Hsplit.
  pose proof (take_while_Forall (λ x, negb (Ascii.eqb x dquote)) s) as Hall.
  pose proof (take_while_stops (λ x, negb (Ascii.eqb x dquote)) s) as Hstop.
  remember (take_while (λ x, negb (Ascii.eqb x dquote)) s) as found.
  clear Heqfound.
  destruct found as [|b body']; [done|].
  destruct (drop (length (b :: body')) s) as [|x post]; [done|].
  intros [= <-]. exists [], post.
  specialize (Hstop x post eq_refl).
  apply negb_false_iff, Ascii.eqb_eq in Hstop as ->.
  split; [|split; [done|]].
  - cbn [app]. f_equal. exact Hsplit.
  - intros Hin. apply (proj1 (Forall_forall _ _) Hall) in Hin.
    apply negb_true_iff, Ascii.eqb_neq in Hin. by destruct Hin.
Qed.

Lemma first_quoted_None s : dquote ∉ s → first_quoted s = None.
Proof.
  induction s as [|c s IH]; [done|].
  intros [Hc Hs]%not_elem_of_cons. cbn [first_quoted].
  assert (Ascii.eqb c dquote = false) as ->.
  { apply Ascii.eqb_neq. by intros ->. }
  by apply IH.
Qed.

(** X18. [_extract_phrase] returns nothing for a query without a double
    quote. A phrase that it returns is the text between two double quotes
    of the query, trimmed: that text is not empty and holds no double
    quote. *)
Theorem X18_extract_phrase query :
  (dquote ∉ chars query → _extract_phrase query = None)
  ∧ ∀ phrase,
      _extract_phrase query = Some phrase →
      ∃ pre body post,
        chars query = pre ++ dquote :: body ++ dquote :: post
        ∧ body ≠ [] ∧ (dquote ∉ body)
        ∧ phrase = strip (str body).
Proof.
  unfold _extract_phrase. split.
  - intros Hq. by rewrite first_quoted_None.
  - intros phrase.
    destruct (first_quoted (chars query)) as [body|] eqn:Hf; [|done].
    intros [= <-].
    apply first_quoted_Some in Hf as (pre & post & ? & ? & ?).
    by exists pre, body, post.
Qed.

End Phrases.

Module Hits.
Import Py PyFacts SearchService Engine.

(** X19. [results_of_hits] keeps every hit: a hit with highlighted
    fragments gives one result per fragment, in order, and a hit without
    any gives exactly one result with an empty snippet, each under the
    filename of the hit (empty when the hit names none). So there are at
    least as many results as hits, and every result comes from a hit. *)
Theorem X19_results_of_hits hits :
  length hits ≤ length (results_of_hits hits)
  ∧ (∀ result,
       result ∈ results_of_hits hits →
       ∃ hit,
         hit ∈ hits
         ∧ filename result = default "" (source_filename hit)
         ∧ (highlight_content hit = [] ∧ snippet result = ""
            ∨ snippet result ∈ highlight_content hit))
  ∧ (∀ hit,
       hit ∈ hits →
       ∃ result,
         result ∈ results_of_hits hits
         ∧ filename result = default "" (source_filename hit)).
Proof.
  unfold results_of_hits. split; [|split].
  - induction hits as [|hit hits IH]; [done|]. cbn [flat_map].
    rewrite length_app. destruct (highlight_content hit); simpl in *; lia.
  - intros result Hres. apply list_elem_of_In, in_flat_map in Hres.
    destruct Hres as (hit & Hhit%list_elem_of_In & Hres).
    exists hit. split; [done|].
    destruct (highlight_content hit) as [|f fs] eqn:Hh.
    + destruct Hres as [<-|[]]. split; [done|]. by left.
    + apply in_map_iff in Hres as (fragment & <- & Hin). split; [done|].
      right. by apply list_elem_of_In.
  - intros hit Hhit.
    destruct (highlight_content hit) as [|f fs] eqn:Hh.
    + exists {| snippet := ""; filename := default "" (source_filename hit) |}.
      split; [|done]. apply list_elem_of_In, in_flat_map.
      exists hit. split; [by apply list_elem_of_In|]. rewrite Hh. by left.
    + exists {| snippet := f; filename := default "" (source_filename hit) |}.
      split; [|done]. apply list_elem_of_In, in_flat_map.
      exists hit. split; [by apply list_elem_of_In|]. rewrite Hh. by left.
Qed.

(** X20. [ensure_index] marks the index ready only when the engine has
    answered that it exists or has created it; after an exception of the
    engine the index stays unmarked, so the check is made again at the
    next call. Once the index is marked ready, [ensure_index] sends nothing
    and changes nothing. *)
Theorem X20_ensure_index_ready (self : service) (sent : list request) :
  (_index_ready self = true →
   ensure_index (self, sent) = (Returned tt, (self, sent)))
  ∧ (_index_ready (ensure_index (self, sent)).2.1 = true →
     ∀ sent', ensure_index ((ensure_index (self, sent)).2.1, sent')
              = (Returned tt, ((ensure_index (self, sent)).2.1, sent')))
  ∧ (_index_ready self = false →
     _index_ready (ensure_index (self, sent)).2.1 = true →
     ∃ es,
       client self = Some es
       ∧ (es_exists es sent (index_name self) = Returned true
          ∨ es_exists es sent (index_name self) = Returned false
            ∧ es_create es (sent ++ [indices_exists (index_name self)])
                (index_name self) = Returned tt)).
Proof.
  split; [apply ensure_index_ready|]. split.
  - intros Hr sent'. by apply ensure_index_ready.
  - intros Hnot. unfold ensure_index, bind, get_self. simpl.
    destruct (client self) as [es|]; [|simpl; congruence].
    rewrite Hnot. unfold try_except, bind, call, ret, put_self. simpl.
    destruct (es_exists es sent (index_name self)) as [[|]|e] eqn:He; simpl.
    + intros _. exists es. split; [done|]. by left.
    + destruct (es_create es (sent ++ [indices_exists (index_name self)])
                  (index_name self)) as [[]|e] eqn:Hcr; simpl.
      * intros _. exists es. split; [done|]. by right.
      * congruence.
    + congruence.
Qed.

End Hits.

(** ** The offsets that the scan reports *)
Module ScanBounds.
Import Py PyFacts Main Scanner.

(** X21. [_find_matches] reports nothing for an empty term. For a term
    that is not empty every offset it reports leaves room for the whole
    lower-cased term inside the lower-cased content, the text that is
    scanned. So whenever lower-casing keeps the length of the term and of
    the content, the reported match lies inside the content itself. *)
Theorem X21_matches_fit content term :
  _find_matches content "" = []
  ∧ (term ≠ "" →
     ∀ i, i ∈ _find_matches content term →
          i + len (lower term) ≤ len (lower content)
          ∧ (len (lower term) = len term →
             len (lower content) = len content →
             i + len term ≤ len content)).
Proof.
  split; [done|]. intros Hterm i Hi.
  destruct (_find_matches_nonempty content term Hterm) as [ne Hms].
  destruct (_find_matches_loop_spec (lower content) (lower term) ne 0)
    as (Hall & _ & _).
  rewrite <- Hms in Hall.
  apply (proj1 (Forall_forall _ _) Hall) in Hi as [_ Hocc].
  apply at_offset_fits in Hocc.
  - fold (len (lower term)) (len (lower content)) in Hocc.
    split; [exact Hocc|]. intros <- <-. exact Hocc.
  - intros He. apply ne. unfold len. by rewrite He.
Qed.

End ScanBounds.
